(** * Trivium: the classical cipher (cl_trivium.py) and the reversible
      circuit of the Grover attack (grover_trivium_attack.py)

    The classical functions work on Python lists of integers.  A list is a
    mutable object, so the embedding keeps a store of list objects and the
    functions take and return references into it; item reads and writes
    raise [IndexError] out of range, slices never raise.  Integers are
    unbounded ([Z]) and [^], [&] are [Z.lxor], [Z.land]. *)

From stdpp Require Import base numbers list.

Local Open Scope Z_scope.

(** ** Python values, store and the evaluation monad *)

(** [IndexError] is Python's.  [DanglingRef] is a fault of the model only:
    a reference that names no object of the store, which the Python runtime
    excludes. *)
Inductive exn := IndexError | DanglingRef.

Inductive result (A : Type) :=
  | Ok (a : A)
  | Raise (e : exn).
Arguments Ok {A} a.
Arguments Raise {A} e.

(** A reference is the allocation index of a list object. *)
Abbreviation ref := nat (only parsing).
Abbreviation heap := (list (list Z)) (only parsing).

Definition Py (A : Type) : Type := heap -> result A * heap.

Definition ret {A} (a : A) : Py A := fun h => (Ok a, h).

Definition bind {A B} (m : Py A) (k : A -> Py B) : Py B :=
  fun h => match m h with
           | (Ok a, h') => k a h'
           | (Raise e, h') => (Raise e, h')
           end.

Notation "x <- m ;; k" := (bind m (fun x => k))
  (at level 100, m at next level, right associativity).
Notation "m ;;; k" := (bind m (fun _ => k))
  (at level 100, right associativity).

Definition raise {A} (e : exn) : Py A := fun h => (Raise e, h).

(** A list display or any expression that builds a list: a new object. *)
Definition new_list (l : list Z) : Py ref :=
  fun h => (Ok (length h), h ++ [l]).

(** The whole list behind a reference. *)
Definition load (r : ref) : Py (list Z) :=
  fun h => match h !! r with
           | Some l => (Ok l, h)
           | None => (Raise DanglingRef, h)
           end.

(** [r[i]] for a non-negative [i]. *)
Definition getitem (r : ref) (i : nat) : Py Z :=
  l <- load r ;;
  match l !! i with
  | Some v => ret v
  | None => raise IndexError
  end.

(** [r[i] = v] for a non-negative [i]: the object is updated in place. *)
Definition setitem (r : ref) (i : nat) (v : Z) : Py unit :=
  l <- load r ;;
  if decide (i < length l)%nat
  then fun h => (Ok tt, <[r := <[i := v]> l]> h)
  else raise IndexError.

(** [r[lo:hi]] for non-negative [lo <= hi]: the cells from [lo] up to, not
    including, [hi], as far as the list has them.  The value is a temporary:
    only the list an assignment finally builds is allocated. *)
Definition getslice (r : ref) (lo hi : nat) : Py (list Z) :=
  l <- load r ;;
  ret (take (hi - lo) (drop lo l)).

(** [for i in range(n): body], the loop index running from [i0]; [a] holds
    the local names the body rebinds. *)
Fixpoint for_from {A} (i0 n : nat) (body : nat -> A -> Py A) (a : A) : Py A :=
  match n with
  | O => ret a
  | S n' => a' <- body i0 a ;; for_from (S i0) n' body a'
  end.

Definition for_range {A} (n : nat) (body : nat -> A -> Py A) (a : A) : Py A :=
  for_from 0 n body a.

Infix ".^" := Z.lxor (at level 40, left associativity).
Infix ".&" := Z.land (at level 40, left associativity).

(** ** cl_trivium.py *)

(** Lines 27-36 of [key_iv_setup]: the zeroed state, the key, the IV and the
    three fixed ones. *)
Definition load_key_iv (key iv : ref) : Py ref :=
  state <- new_list (replicate 288 0) ;;
  for_range 80 (fun i _ => v <- getitem key i ;; setitem state i v) tt ;;;
  for_range 80 (fun i _ => v <- getitem iv i ;; setitem state (93 + i) v) tt ;;;
  for_range 3 (fun i _ => setitem state (285 + i) 1) tt ;;;
  ret state.

(** Lines 39-43: the body of the warm-up loop.  It rebinds [state] to a new
    list and returns that binding. *)
Definition warmup_clock (state : ref) : Py ref :=
  s65 <- getitem state 65 ;; s90 <- getitem state 90 ;;
  s91 <- getitem state 91 ;; s92 <- getitem state 92 ;;
  s170 <- getitem state 170 ;;
  let t1 := s65 .^ (s90 .& s91) .^ s92 .^ s170 in
  s161 <- getitem state 161 ;; s174 <- getitem state 174 ;;
  s175 <- getitem state 175 ;; s176 <- getitem state 176 ;;
  s263 <- getitem state 263 ;;
  let t2 := s161 .^ (s174 .& s175) .^ s176 .^ s263 in
  s242 <- getitem state 242 ;; s285 <- getitem state 285 ;;
  s286 <- getitem state 286 ;; s287 <- getitem state 287 ;;
  s68 <- getitem state 68 ;;
  let t3 := s242 .^ (s285 .& s286) .^ s287 .^ s68 in
  a <- getslice state 0 92 ;;
  b <- getslice state 93 176 ;;
  c <- getslice state 177 287 ;;
  new_list ([t3] ++ a ++ [t1] ++ b ++ [t2] ++ c).

(** Lines 38-43: [for i in range(4 * 288)]. *)
Definition warm_up (state : ref) : Py ref :=
  for_range (4 * 288) (fun _ state => warmup_clock state) state.

Definition key_iv_setup (key iv : ref) : Py ref :=
  state <- load_key_iv key iv ;;
  warm_up state.

(** Lines 60-71: the body of the keystream loop at index [i].  It writes
    [keystream[i]] and rebinds [state]. *)
Definition keystream_clock (keystream : ref) (i : nat) (state : ref) : Py ref :=
  s65 <- getitem state 65 ;; s92 <- getitem state 92 ;;
  let t1 := s65 .^ s92 in
  s161 <- getitem state 161 ;; s176 <- getitem state 176 ;;
  let t2 := s161 .^ s176 in
  s242 <- getitem state 242 ;; s287 <- getitem state 287 ;;
  let t3 := s242 .^ s287 in
  let z := t1 .^ t2 .^ t3 in
  setitem keystream i z ;;;
  s90 <- getitem state 90 ;; s91 <- getitem state 91 ;;
  s170 <- getitem state 170 ;;
  let t1 := t1 .^ (s90 .& s91) .^ s170 in
  s174 <- getitem state 174 ;; s175 <- getitem state 175 ;;
  s263 <- getitem state 263 ;;
  let t2 := t2 .^ (s174 .& s175) .^ s263 in
  s285 <- getitem state 285 ;; s286 <- getitem state 286 ;;
  s68 <- getitem state 68 ;;
  let t3 := t3 .^ (s285 .& s286) .^ s68 in
  a <- getslice state 0 92 ;;
  b <- getslice state 93 176 ;;
  c <- getslice state 177 287 ;;
  new_list ([t3] ++ a ++ [t1] ++ b ++ [t2] ++ c).

(** [key_stream_generation(state, N)].  [[0] * N] is empty and [range(N)]
    runs no iteration when [N] is negative.  The last binding of [state] is
    dropped: only [keystream] is returned. *)
Definition key_stream_generation (state : ref) (N : Z) : Py ref :=
  keystream <- new_list (replicate (Z.to_nat N) 0) ;;
  for_range (Z.to_nat N) (keystream_clock keystream) state ;;;
  ret keystream.

(** ** Callers of the two functions *)

(** A caller that sets the cipher up and asks for [N1] bits and then for
    [N2] bits with the same [state]; the result is the second keystream. *)
Definition two_requests (key iv : ref) (N1 N2 : Z) : Py (list Z) :=
  state <- key_iv_setup key iv ;;
  key_stream_generation state N1 ;;;
  keystream <- key_stream_generation state N2 ;;
  load keystream.

(** A caller that sets the cipher up and asks once, for [N] bits. *)
Definition fresh_request (key iv : ref) (N : Z) : Py (list Z) :=
  state <- key_iv_setup key iv ;;
  keystream <- key_stream_generation state N ;;
  load keystream.

(** ** The clock as a function on register contents

    The spec's description of one clock, generic in the type of a cell so that
    the same description serves the integer lists of cl_trivium.py and the
    basis states of the circuit. *)
Section Clock.
Context {B : Type} `{!Inhabited B} (bxor band : B -> B -> B).

Local Infix "+x" := bxor (at level 40, left associativity).

(** Old cells [lo..hi], both ends included. *)
Definition cells (lo hi : nat) (s : list B) : list B :=
  (fun i => s !!! i) <$> seq lo (S hi - lo).

Definition tap1 (s : list B) : B :=
  (s !!! 65%nat) +x band (s !!! 90%nat) (s !!! 91%nat) +x (s !!! 92%nat) +x (s !!! 170%nat).
Definition tap2 (s : list B) : B :=
  (s !!! 161%nat) +x band (s !!! 174%nat) (s !!! 175%nat) +x (s !!! 176%nat) +x (s !!! 263%nat).
Definition tap3 (s : list B) : B :=
  (s !!! 242%nat) +x band (s !!! 285%nat) (s !!! 286%nat) +x (s !!! 287%nat) +x (s !!! 68%nat).

(** t3, old cells 0..91, t1, old cells 93..175, t2, old cells 177..286. *)
Definition forward_clock_spec (s : list B) : list B :=
  tap3 s :: cells 0 91 s ++ tap1 s :: cells 93 175 s ++ tap2 s :: cells 177 286 s.

Definition output_bit_spec (s : list B) : B :=
  (s !!! 65%nat) +x (s !!! 92%nat) +x (s !!! 161%nat) +x (s !!! 176%nat)
    +x (s !!! 242%nat) +x (s !!! 287%nat).

(** The first [n] output bits from register contents [s], bit 0 first. *)
Definition stream_spec (n : nat) (s : list B) : list B :=
  (fun j => output_bit_spec (Nat.iter j forward_clock_spec s)) <$> seq 0 n.

(** The [n] successive register contents after [s]. *)
Definition orbit (n : nat) (s : list B) : list (list B) :=
  (fun j => Nat.iter (S j) forward_clock_spec s) <$> seq 0 n.
End Clock.

Abbreviation clockZ := (forward_clock_spec Z.lxor Z.land).
Abbreviation outZ := (output_bit_spec Z.lxor).

(** ** Notions the statements use *)

(** [splice i new l]: [l] with the cells from [i] on overwritten by [new]. *)
Definition splice {A} (i : nat) (new l : list A) : list A :=
  take i l ++ new ++ drop (i + length new) l.

(** The last binding of a name that each of [n] iterations rebinds to a new
    object, the first of them allocated at [next]. *)
Definition last_ref (r next n : nat) : nat :=
  match n with O => r | S m => (next + m)%nat end.

(** The register contents that lines 27-36 build from a key and an IV. *)
Definition init_state (k v : list Z) : list Z :=
  take 80 k ++ replicate 13 0 ++ take 80 v ++ replicate 112 0 ++ [1; 1; 1].

(** The register after the warm-up. *)
Definition warmed (k v : list Z) : list Z := Nat.iter 1152 clockZ (init_state k v).

Definition is_bit (x : Z) : Prop := x = 0 \/ x = 1.

(** [frames n m]: run on a store of at least [n] objects, [m] keeps the first
    [n] objects as they are, also when it raises. *)
Definition frames {A} (n : nat) (m : Py A) : Prop :=
  forall h : heap, (n <= length h)%nat ->
    (n <= length (m h).2)%nat /\ forall r, (r < n)%nat -> (m h).2 !! r = h !! r.

(** The 80 bits of hex 0123456789ABCDEF1234 as [BitArray] indexes them: the
    most significant bit of the first hex digit is item 0 (lines 78-79). *)
Definition nibble (d : Z) : list Z :=
  [Z.land (Z.shiftr d 3) 1; Z.land (Z.shiftr d 2) 1; Z.land (Z.shiftr d 1) 1; Z.land d 1].

Definition hex_bits (digits : list Z) : list Z := concat (nibble <$> digits).

Definition test_key : list Z :=
  hex_bits [0; 1; 2; 3; 4; 5; 6; 7; 8; 9; 10; 11; 12; 13; 14; 15; 1; 2; 3; 4].

(** * grover_trivium_attack.py: the Trivium circuit and its inverse

    [trivium] and [inv_trivium] append CNOT, Toffoli and SWAP gates to the
    circuit [qc].  Each of these gates maps a computational basis state to a
    basis state, so the circuit is modelled by the list of gates appended and
    its action on a basis state, a list of booleans indexed by qubit; the
    unitary of such a circuit is the linear extension of that action.  The
    qubits of [qc] are numbered in the order of its registers: [s] (288
    qubits), [t] (3 qubits), then [z] ([n] qubits). *)
Module Grover.

Abbreviation qubit := nat (only parsing).

Definition s (i : nat) : qubit := i.
Definition t (i : nat) : qubit := (288 + i)%nat.
Definition z (i : nat) : qubit := (291 + i)%nat.

Inductive gate :=
  | cx (c tg : qubit)
  | ccx (c1 c2 tg : qubit)
  | swap (a b : qubit).

Abbreviation circuit := (list gate) (only parsing).

(** [for i in range(n): body], as the gates appended. *)
Definition for_each (n : nat) (body : nat -> circuit) : circuit :=
  concat (body <$> seq 0 n).

Definition state_update (a b c d e t_index : nat) : circuit :=
  [cx (s a) (s d); ccx (s b) (s c) (s d); cx (s e) (s d); swap (s d) (t t_index)].

(** [j] runs from [a] down to [b]. *)
Definition state_shifting (a b : nat) (tq : qubit) : circuit :=
  (fun j => if decide (j = b) then swap (s b) tq else swap (s j) (s (j - 1)))
    <$> reverse (seq b (S a - b)).

Definition update_t (a b t_index : nat) : circuit :=
  [cx (s a) (s b); swap (s b) (t t_index)].

(** Lines 86-92: one initialisation round. *)
Definition forward_round : circuit :=
  state_update 65 90 91 92 170 0
  ++ state_update 161 174 175 176 263 1
  ++ state_update 242 285 286 287 68 2
  ++ state_shifting 287 177 (t 1)
  ++ state_shifting 176 93 (t 0)
  ++ state_shifting 92 0 (t 2).

(** Lines 96-113: the keystream round that writes [z[i]]. *)
Definition keystream_round (i : nat) : circuit :=
  update_t 65 92 0
  ++ update_t 161 176 1
  ++ update_t 242 287 2
  ++ [cx (t 0) (z i); cx (t 1) (z i); cx (t 2) (z i)]
  ++ [ccx (s 90) (s 91) (t 0); cx (s 170) (t 0);
      ccx (s 174) (s 175) (t 1); cx (s 263) (t 1);
      ccx (s 285) (s 286) (t 2); cx (s 68) (t 2)]
  ++ state_shifting 287 177 (t 1)
  ++ state_shifting 176 93 (t 0)
  ++ state_shifting 92 0 (t 2).

Definition trivium (rounds n : nat) : circuit :=
  for_each rounds (fun _ => forward_round) ++ for_each n keystream_round.

Definition inv_state_update (a b c d e t_index : nat) : circuit :=
  [swap (s d) (t t_index); cx (s e) (s d); ccx (s b) (s c) (s d); cx (s a) (s d)].

(** [for j in range(b, a + 1)]. *)
Definition state_shifting_left (a b : nat) (tq : qubit) : circuit :=
  (fun j => if decide (j = b) then swap (s b) tq else swap (s j) (s (j - 1)))
    <$> seq b (S a - b).

Definition inv_update_t (a b t_index : nat) : circuit :=
  [swap (s b) (t t_index); cx (s a) (s b)].

(** Lines 147-165: the inverse keystream round at loop index [i] of [n]. *)
Definition inv_keystream_round (n i : nat) : circuit :=
  state_shifting_left 92 0 (t 2)
  ++ state_shifting_left 176 93 (t 0)
  ++ state_shifting_left 287 177 (t 1)
  ++ [cx (s 68) (t 2); ccx (s 285) (s 286) (t 2);
      cx (s 263) (t 1); ccx (s 174) (s 175) (t 1);
      cx (s 170) (t 0); ccx (s 90) (s 91) (t 0)]
  ++ [cx (t 2) (z (n - 1 - i)); cx (t 1) (z (n - 1 - i)); cx (t 0) (z (n - 1 - i))]
  ++ inv_update_t 242 287 2
  ++ inv_update_t 161 176 1
  ++ inv_update_t 65 92 0.

(** Lines 169-175: one inverse initialisation round. *)
Definition inverse_round : circuit :=
  state_shifting_left 92 0 (t 2)
  ++ state_shifting_left 176 93 (t 0)
  ++ state_shifting_left 287 177 (t 1)
  ++ inv_state_update 242 285 286 287 68 2
  ++ inv_state_update 161 174 175 176 263 1
  ++ inv_state_update 65 90 91 92 170 0.

Definition inv_trivium (rounds n : nat) : circuit :=
  for_each n (inv_keystream_round n) ++ for_each rounds (fun _ => inverse_round).

(** ** Action on basis states *)

Definition apply (g : gate) (σ : list bool) : list bool :=
  match g with
  | cx c tg => <[tg := xorb (σ !!! tg) (σ !!! c)]> σ
  | ccx c1 c2 tg => <[tg := xorb (σ !!! tg) (σ !!! c1 && σ !!! c2)]> σ
  | swap a b => <[b := σ !!! a]> (<[a := σ !!! b]> σ)
  end.

Definition run (qc : circuit) (σ : list bool) : list bool :=
  foldl (fun σ g => apply g σ) σ qc.

(** The qubits of a gate exist among [N] qubits and are distinct, as Qiskit
    requires when the gate is appended. *)
Definition gate_ok (N : nat) (g : gate) : Prop :=
  match g with
  | cx c tg => (c < N /\ tg < N /\ c <> tg)%nat
  | ccx c1 c2 tg => (c1 < N /\ c2 < N /\ tg < N /\ c1 <> c2 /\ c1 <> tg /\ c2 <> tg)%nat
  | swap a b => (a < N /\ b < N /\ a <> b)%nat
  end.

Global Instance gate_ok_dec N g : Decision (gate_ok N g).
Proof. destruct g; cbn; apply _. Defined.

(** The spec's inverse clock on register contents: every register moves one
    cell back towards its head, and the cell that fell off each register's end
    is recovered from the tap that was inserted and the restored cells. *)
Definition inverse_clock_spec (s' : list bool) : list bool :=
  let a := cells 1 92 s' in
  let b := cells 94 176 s' in
  let c := cells 178 287 s' in
  let u := a ++ [false] ++ b ++ [false] ++ c ++ [false] in
  let s287 := xorb (xorb (xorb (s' !!! 0%nat) (u !!! 68%nat))
                         (u !!! 285%nat && u !!! 286%nat)) (u !!! 242%nat) in
  let s176 := xorb (xorb (xorb (s' !!! 177%nat) (u !!! 263%nat))
                         (u !!! 174%nat && u !!! 175%nat)) (u !!! 161%nat) in
  let s92 := xorb (xorb (xorb (s' !!! 93%nat) (u !!! 170%nat))
                        (u !!! 90%nat && u !!! 91%nat)) (u !!! 65%nat) in
  a ++ [s92] ++ b ++ [s176] ++ c ++ [s287].

End Grover.

(** The contents of the state that [key_iv_setup] returns. *)
Definition setup_state (key iv : ref) (h : heap) : option (list Z) :=
  match key_iv_setup key iv h with
  | (Ok state, h') => h' !! state
  | (Raise _, _) => None
  end.

(** * The circuits of qc_trivium.py and of the oracle

    The gate lists of the script of qc_trivium.py and of [oracle] in
    grover_trivium_attack.py, on the same basis states as [trivium]. *)
Module Circuit.
Import Grover.
Local Close Scope Z_scope.

(** Lines 96-98 and 104-113 of [trivium]: the gates of a keystream round
    around the three that write [z[i]]. *)
Definition keystream_pre : list gate :=
  update_t 65 92 0 ++ update_t 161 176 1 ++ update_t 242 287 2.

Definition keystream_out (i : nat) : list gate :=
  [cx (t 0) (z i); cx (t 1) (z i); cx (t 2) (z i)].

Definition keystream_post : list gate :=
  [ccx (s 90) (s 91) (t 0); cx (s 170) (t 0);
   ccx (s 174) (s 175) (t 1); cx (s 263) (t 1);
   ccx (s 285) (s 286) (t 2); cx (s 68) (t 2)]
  ++ state_shifting 287 177 (t 1)
  ++ state_shifting 176 93 (t 0)
  ++ state_shifting 92 0 (t 2).


(** ** qc_trivium.py *)

(** The gates of the two scripts: those of [trivium], X and the
    multi-controlled X. *)
Inductive op :=
  | G (g : gate)
  | x (q : qubit)
  | mcx (controls : list qubit) (target : qubit).

Definition apply_op (o : op) (σ : list bool) : list bool :=
  match o with
  | G g => apply g σ
  | x q => <[q := negb (σ !!! q)]> σ
  | mcx controls target =>
      <[target := xorb (σ !!! target) (forallb (fun c => σ !!! c) controls)]> σ
  end.

Definition run_ops (qc : list op) (σ : list bool) : list bool :=
  foldl (fun σ o => apply_op o σ) σ qc.

(** [for i in range(n): if bits[i]: qc.x(s[i + off])], the loop index
    running from [i0]; [bits[i]] raises [IndexError] past the end. *)
Fixpoint x_where (bits : list bool) (off i0 n : nat) : result (list op) :=
  match n with
  | O => Ok []
  | S n' =>
      match bits !! i0 with
      | None => Raise IndexError
      | Some b =>
          match x_where bits off (S i0) n' with
          | Ok ops => Ok ((if b : bool then [x (s (i0 + off))] else []) ++ ops)
          | Raise e => Raise e
          end
      end
  end.

(** Lines 83-127 for a key, an IV and [r] keystream bits: the circuit the
    script builds.  Its two loops (lines 99-127) append the gates that
    [trivium(qc, s, t, 1152, r)] appends. *)
Definition qc_trivium (key iv : list bool) (r : nat) : result (list op) :=
  match x_where key 0 0 80 with
  | Raise e => Raise e
  | Ok key_ops =>
      match x_where iv 93 0 80 with
      | Raise e => Raise e
      | Ok iv_ops =>
          Ok (key_ops ++ iv_ops ++ [x (s 285); x (s 286); x (s 287)]
              ++ (G <$> trivium 1152 r))
      end
  end.

(** [qc.measure(z, c)] on a basis state: the bits of [z]. *)
Definition measure_z (r : nat) (σ : list bool) : list bool := take r (drop 291 σ).

(** Lines 129-139: the circuit run from the all-zero state of its
    [288 + 3 + r] qubits and [z] measured, [z[0]] first. *)
Definition qc_keystream (key iv : list bool) (r : nat) : result (list bool) :=
  match qc_trivium key iv r with
  | Raise e => Raise e
  | Ok ops => Ok (measure_z r (run_ops ops (replicate (291 + r) false)))
  end.

(** The register that the X gates of lines 83-96 prepare. *)
Definition init_basis (key iv : list bool) : list bool :=
  take 80 key ++ replicate 13 false ++ take 80 iv ++ replicate 112 false
    ++ [true; true; true].


(** ** The oracle of grover_trivium_attack.py *)

(** The registers of line 269 after [s], [t] and [z], each of [n] qubits
    but the one-qubit [r_output]. *)
Definition r_key (n i : nat) : qubit := (291 + n + i)%nat.
Definition rev_ks (n i : nat) : qubit := (291 + 2 * n + i)%nat.
Definition r_ancilla (n i : nat) : qubit := (291 + 3 * n + i)%nat.
Definition r_output (n : nat) : qubit := (291 + 4 * n)%nat.

(** [for i in range(n): body], as the gates appended. *)
Definition for_ops (n : nat) (body : nat -> list op) : list op :=
  concat (body <$> seq 0 n).

(** Lines 197-222. *)
Definition oracle (n rounds : nat) : list op :=
  for_ops n (fun i => [G (cx (r_key n i) (s (51 + i)))])
  ++ (G <$> trivium rounds n)
  ++ for_ops n (fun i => [G (cx (rev_ks n i) (r_ancilla n i));
                          G (cx (z i) (r_ancilla n i));
                          x (r_ancilla n i)])
  ++ [mcx (r_ancilla n <$> seq 0 n) (r_output n)]
  ++ for_ops n (fun i => [x (r_ancilla n i);
                          G (cx (rev_ks n i) (r_ancilla n i));
                          G (cx (z i) (r_ancilla n i))])
  ++ (G <$> inv_trivium rounds n)
  ++ for_ops n (fun i => [G (cx (r_key n i) (s (51 + i)))]).

(** The qubits of a gate are among the first [N]. *)
Definition op_below (N : nat) (o : op) : Prop :=
  match o with
  | G g => gate_ok N g
  | x q => (q < N)%nat
  | mcx controls target => Forall (fun c => (c < N)%nat) controls /\ (target < N)%nat
  end.

(** The [s] register with the candidate key bits of [r_key] xored into
    cells 51, 52, ... (lines 197-198). *)
Definition candidate (n : nat) (σ : list bool) : list bool :=
  (fun q => if decide (51 <= q < 51 + n)%nat
            then xorb (σ !!! q) (σ !!! r_key n (q - 51))
            else σ !!! q) <$> seq 0 288.

(** The keystream the candidate yields: [n] bits after [rounds] clocks. *)
Definition candidate_keystream (n rounds : nat) (σ : list bool) : list bool :=
  stream_spec xorb andb n
    (Nat.iter rounds (forward_clock_spec xorb andb) (candidate n σ)).

(** Bit [i] of the comparison of line 204-207. *)
Definition agrees (n rounds : nat) (σ : list bool) (i : nat) : bool :=
  negb (xorb (xorb (σ !!! r_ancilla n i) (σ !!! rev_ks n i))
             (xorb (σ !!! z i) (candidate_keystream n rounds σ !!! i))).

End Circuit.

(** * Properties *)

(** ** The clock on register contents *)
Section ClockFacts.
Context {B : Type} `{!Inhabited B} (bxor band : B -> B -> B).

Local Abbreviation fclock := (forward_clock_spec bxor band).
Local Abbreviation fstream := (stream_spec bxor band).
Local Abbreviation forbit := (orbit bxor band).
Local Abbreviation fout := (output_bit_spec bxor).

Lemma length_cells lo hi (s : list B) : length (cells lo hi s) = (S hi - lo)%nat.
Proof. unfold cells. by rewrite length_fmap, length_seq. Qed.

Lemma length_forward_clock_spec (s : list B) : length (fclock s) = 288%nat.
Proof.
  unfold forward_clock_spec. cbn [length].
  rewrite !length_app. cbn [length]. rewrite !length_app. cbn [length].
  rewrite !length_cells. reflexivity.
Qed.

Lemma length_iter_forward n (s : list B) :
  length s = 288%nat -> length (Nat.iter n fclock s) = 288%nat.
Proof.
  destruct n; [done|]. intros _.
  apply (length_forward_clock_spec (Nat.iter n fclock s)).
Qed.

Lemma lookup_cells lo hi (s : list B) i :
  (i < S hi - lo)%nat -> cells lo hi s !! i = Some (s !!! (lo + i)%nat).
Proof.
  intros Hi. unfold cells. rewrite list_lookup_fmap, lookup_seq_lt by done.
  reflexivity.
Qed.

(** A Python slice inside the list is the run of its cells. *)
Lemma slice_cells lo hi (s : list B) :
  (lo <= S hi)%nat -> (S hi <= length s)%nat ->
  take (S hi - lo) (drop lo s) = cells lo hi s.
Proof.
  intros Hlo Hhi. apply list_eq. intros i.
  destruct (decide (i < S hi - lo)%nat) as [Hi|Hi].
  - rewrite lookup_cells by done.
    rewrite lookup_take_lt, lookup_drop by done.
    apply list_lookup_lookup_total_lt. lia.
  - rewrite lookup_take_ge by lia. symmetry.
    apply lookup_ge_None. rewrite length_cells. lia.
Qed.

Lemma stream_spec_S n (s : list B) :
  fstream (S n) s = fout s :: fstream n (fclock s).
Proof.
  unfold stream_spec. cbn [seq fmap list_fmap]. f_equal.
  rewrite <- fmap_S_seq, <- list_fmap_compose. apply list_fmap_ext.
  intros _ j _. unfold compose. by rewrite <- Nat.iter_succ_r.
Qed.

Lemma orbit_S n (s : list B) :
  forbit (S n) s = fclock s :: forbit n (fclock s).
Proof.
  unfold orbit. cbn [seq fmap list_fmap]. f_equal.
  rewrite <- fmap_S_seq, <- list_fmap_compose. apply list_fmap_ext.
  intros _ j _. unfold compose. by rewrite <- Nat.iter_succ_r.
Qed.

Lemma length_stream_spec n (s : list B) : length (fstream n s) = n.
Proof. unfold stream_spec. by rewrite length_fmap, length_seq. Qed.

Lemma length_orbit n (s : list B) : length (forbit n s) = n.
Proof. unfold orbit. by rewrite length_fmap, length_seq. Qed.

Lemma stream_spec_take n m (s : list B) :
  (n <= m)%nat -> take n (fstream m s) = fstream n s.
Proof.
  intros Hnm. unfold stream_spec. rewrite <- fmap_take. f_equal.
  rewrite take_seq. f_equal. lia.
Qed.

Lemma stream_spec_drop n m (s : list B) :
  drop n (fstream (n + m) s) = fstream m (Nat.iter n fclock s).
Proof.
  revert s. induction n as [|n IH]; intros s; [done|].
  change (S n + m)%nat with (S (n + m)). rewrite stream_spec_S. cbn [drop].
  rewrite IH. f_equal. symmetry. apply Nat.iter_succ_r.
Qed.
End ClockFacts.

(** ** Running the primitives *)

Lemma bind_ok {A B} (m : Py A) (k : A -> Py B) h a h' :
  m h = (Ok a, h') -> bind m k h = k a h'.
Proof. intros E. unfold bind. by rewrite E. Qed.

Lemma bind_raise {A B} (m : Py A) (k : A -> Py B) h e h' :
  m h = (Raise e, h') -> bind m k h = (Raise e, h').
Proof. intros E. unfold bind. by rewrite E. Qed.

Lemma load_ok (h : heap) r l : h !! r = Some l -> load r h = (Ok l, h).
Proof. intros E. unfold load. by rewrite E. Qed.

Lemma getitem_ok (h : heap) r l i :
  h !! r = Some l -> (i < length l)%nat -> getitem r i h = (Ok (l !!! i), h).
Proof.
  intros E Hi. unfold getitem. rewrite (bind_ok _ _ _ _ _ (load_ok _ _ _ E)).
  by rewrite (list_lookup_lookup_total_lt l i Hi).
Qed.

Lemma getitem_IndexError (h : heap) r l i :
  h !! r = Some l -> (length l <= i)%nat -> getitem r i h = (Raise IndexError, h).
Proof.
  intros E Hi. unfold getitem. rewrite (bind_ok _ _ _ _ _ (load_ok _ _ _ E)).
  by rewrite (lookup_ge_None_2 l i Hi).
Qed.

Lemma setitem_ok (h : heap) r l i v :
  h !! r = Some l -> (i < length l)%nat ->
  setitem r i v h = (Ok tt, <[r := <[i := v]> l]> h).
Proof.
  intros E Hi. unfold setitem. rewrite (bind_ok _ _ _ _ _ (load_ok _ _ _ E)).
  by rewrite decide_True.
Qed.

Lemma getslice_ok (h : heap) r l lo hi :
  h !! r = Some l -> getslice r lo hi h = (Ok (take (hi - lo) (drop lo l)), h).
Proof.
  intros E. unfold getslice. by rewrite (bind_ok _ _ _ _ _ (load_ok _ _ _ E)).
Qed.

(** Reads and slices of a list that is known to be long enough. *)
Ltac py_read E :=
  repeat first
    [ erewrite bind_ok by (eapply getitem_ok; [exact E | lia])
    | erewrite bind_ok by (eapply getslice_ok; exact E) ].

(** ** The two clocks and the loops around them *)

Lemma rotate_cells (s : list Z) (t1 t2 t3 : Z) :
  length s = 288%nat ->
  [t3] ++ take (92 - 0) (drop 0 s) ++ [t1] ++ take (176 - 93) (drop 93 s)
       ++ [t2] ++ take (287 - 177) (drop 177 s)
  = t3 :: cells 0 91 s ++ t1 :: cells 93 175 s ++ t2 :: cells 177 286 s.
Proof.
  intros Hs. rewrite <- !slice_cells by lia. reflexivity.
Qed.

Lemma warmup_clock_run (h : heap) state s :
  h !! state = Some s -> length s = 288%nat ->
  warmup_clock state h = (Ok (length h), h ++ [clockZ s]).
Proof.
  intros E Hs. unfold warmup_clock. py_read E.
  unfold new_list. by rewrite rotate_cells.
Qed.

Lemma lxor_taps (a b c d : Z) : a .^ b .^ c .^ d = a .^ c .^ b .^ d.
Proof.
  rewrite (Z.lxor_assoc a b c), (Z.lxor_comm b c), <- (Z.lxor_assoc a c b).
  reflexivity.
Qed.

Lemma lxor_out (a b c d e f : Z) :
  (a .^ b) .^ (c .^ d) .^ (e .^ f) = a .^ b .^ c .^ d .^ e .^ f.
Proof. by rewrite <- !Z.lxor_assoc. Qed.

(** The keystream clock: [keystream[i]] receives the output bit and the new
    state list is the one the warm-up clock builds. *)
Lemma keystream_clock_run (h : heap) keystream ksl i state s :
  h !! state = Some s -> length s = 288%nat ->
  h !! keystream = Some ksl -> (i < length ksl)%nat -> state <> keystream ->
  keystream_clock keystream i state h
  = (Ok (length h), <[keystream := <[i := outZ s]> ksl]> h ++ [clockZ s]).
Proof.
  intros E Hs Ek Hi Hne. unfold keystream_clock. py_read E.
  erewrite bind_ok by (eapply setitem_ok; [exact Ek | exact Hi]).
  assert (E' : forall l, <[keystream := l]> h !! state = Some s).
  { intros l. by rewrite list_lookup_insert_ne. }
  py_read (E' (<[i := (s !!! 65%nat .^ s !!! 92%nat) .^ (s !!! 161%nat .^ s !!! 176%nat)
                       .^ (s !!! 242%nat .^ s !!! 287%nat)]> ksl)).
  unfold new_list. rewrite length_insert.
  rewrite rotate_cells by done. unfold forward_clock_spec, tap1, tap2, tap3.
  rewrite lxor_out. do 4 f_equal; [apply lxor_taps|].
  do 2 f_equal; [apply lxor_taps|]. do 2 f_equal. apply lxor_taps.
Qed.

Lemma splice_nil {A} i (l : list A) : splice i [] l = l.
Proof. unfold splice. cbn. rewrite Nat.add_0_r. apply take_drop. Qed.

Lemma splice_step {A} i x (rest l : list A) :
  (i < length l)%nat -> splice (S i) rest (<[i := x]> l) = splice i (x :: rest) l.
Proof.
  intros Hi. unfold splice.
  rewrite (take_S_r _ i x) by (by apply list_lookup_insert_eq).
  rewrite take_insert_ge by done. rewrite drop_insert_lt by (cbn; lia).
  rewrite <- app_assoc. cbn [app length]. by rewrite Nat.add_succ_r.
Qed.

Lemma splice_middle {A} i (new a b c : list A) :
  length a = i -> length new = length b -> splice i new (a ++ b ++ c) = a ++ new ++ c.
Proof.
  intros <- Hn. unfold splice. rewrite take_app_length. do 2 f_equal.
  rewrite drop_app_add, Hn. apply drop_app_length.
Qed.

Lemma length_splice {A} i (new l : list A) :
  (i + length new <= length l)%nat -> length (splice i new l) = length l.
Proof.
  intros Hi. unfold splice. rewrite !length_app, length_take, length_drop. lia.
Qed.

Lemma warmup_loop_run n : forall i0 (h : heap) state s,
  h !! state = Some s -> length s = 288%nat ->
  for_from i0 n (fun _ st => warmup_clock st) state h
  = (Ok (last_ref state (length h) n), h ++ orbit Z.lxor Z.land n s).
Proof.
  induction n as [|n IH]; intros i0 h state s E Hs.
  - cbn. unfold ret. by rewrite app_nil_r.
  - cbn [for_from]. rewrite (bind_ok _ _ _ _ _ (warmup_clock_run h state s E Hs)).
    rewrite (IH (S i0) _ (length h) (clockZ s)).
    + rewrite orbit_S, <- app_assoc. cbn [app]. f_equal. f_equal.
      destruct n; cbn; [lia|]. rewrite length_app. cbn. lia.
    + apply list_lookup_middle. reflexivity.
    + apply length_forward_clock_spec.
Qed.

Lemma keystream_loop_run n : forall i0 (h : heap) keystream ksl state s,
  h !! state = Some s -> length s = 288%nat ->
  h !! keystream = Some ksl -> (i0 + n <= length ksl)%nat -> state <> keystream ->
  for_from i0 n (keystream_clock keystream) state h
  = (Ok (last_ref state (length h) n),
     <[keystream := splice i0 (stream_spec Z.lxor Z.land n s) ksl]> h
       ++ orbit Z.lxor Z.land n s).
Proof.
  induction n as [|n IH]; intros i0 h keystream ksl state s E Hs Ek Hi Hne.
  - cbn. unfold ret. rewrite app_nil_r. change (stream_spec _ _ 0 s) with (@nil Z).
    by rewrite splice_nil, list_insert_id.
  - pose proof (lookup_lt_Some _ _ _ Ek) as Hk.
    cbn [for_from].
    rewrite (bind_ok _ _ _ _ _
               (keystream_clock_run h keystream ksl i0 state s E Hs Ek ltac:(lia) Hne)).
    rewrite (IH (S i0) _ keystream (<[i0 := outZ s]> ksl) (length h) (clockZ s)).
    + rewrite stream_spec_S, orbit_S.
      rewrite insert_app_l by (by rewrite length_insert).
      rewrite list_insert_insert_eq, splice_step by lia.
      rewrite <- app_assoc. cbn [app].
      rewrite length_app, length_insert. cbn [length].
      f_equal. f_equal. destruct n; cbn; lia.
    + rewrite <- (length_insert h keystream (<[i0:=outZ s]> ksl)).
      apply list_lookup_middle. reflexivity.
    + apply length_forward_clock_spec.
    + rewrite lookup_app_l by (by rewrite length_insert).
      by apply list_lookup_insert_eq.
    + rewrite length_insert. lia.
    + lia.
Qed.

(** What a call of [key_stream_generation] does to the store: one new list
    for the keystream, then one new list per clock; nothing else changes. *)
Lemma key_stream_generation_run (h : heap) state s N :
  h !! state = Some s -> length s = 288%nat ->
  key_stream_generation state N h
  = (Ok (length h),
     h ++ stream_spec Z.lxor Z.land (Z.to_nat N) s :: orbit Z.lxor Z.land (Z.to_nat N) s).
Proof.
  intros E Hs. pose proof (lookup_lt_Some _ _ _ E) as Hst.
  unfold key_stream_generation, for_range.
  erewrite bind_ok by reflexivity.
  erewrite bind_ok.
  2:{ apply (keystream_loop_run _ 0 _ (length h) (replicate (Z.to_nat N) 0) state s).
      - by rewrite lookup_app_l.
      - done.
      - apply list_lookup_middle. reflexivity.
      - rewrite length_replicate. lia.
      - lia. }
  unfold ret. f_equal.
  replace (length h) with (length h + 0)%nat at 1 by lia.
  rewrite insert_app_r. cbn [list_insert insert]. rewrite <- app_assoc. cbn [app].
  do 2 f_equal. unfold splice. cbn [take app].
  rewrite drop_ge, app_nil_r; [done|].
  rewrite length_replicate, length_stream_spec. lia.
Qed.

(** The loops of lines 29-33: [dst[off + i] = src[i]]. *)
Lemma copy_loop_run n : forall i0 (h : heap) src k dst d off,
  h !! src = Some k -> h !! dst = Some d -> src <> dst ->
  (i0 + n <= length k)%nat -> (off + i0 + n <= length d)%nat ->
  for_from i0 n (fun i _ => v <- getitem src i ;; setitem dst (off + i) v) tt h
  = (Ok tt, <[dst := splice (off + i0) (take n (drop i0 k)) d]> h).
Proof.
  induction n as [|n IH]; intros i0 h src k dst d off Es Ed Hne Hk Hd.
  - cbn [for_from]. change (take 0 (drop i0 k)) with (@nil Z).
    unfold ret. by rewrite splice_nil, list_insert_id.
  - cbn [for_from].
    erewrite bind_ok.
    2:{ erewrite bind_ok by (eapply getitem_ok; [exact Es | lia]).
        eapply setitem_ok; [exact Ed | lia]. }
    rewrite (IH (S i0) _ src k dst (<[(off + i0)%nat := k !!! i0]> d) off).
    + rewrite list_insert_insert_eq. do 2 f_equal.
      rewrite Nat.add_succ_r, splice_step by lia. f_equal.
      rewrite (drop_S k (k !!! i0) i0); [done|].
      apply list_lookup_lookup_total_lt. lia.
    + by rewrite list_lookup_insert_ne.
    + apply list_lookup_insert_eq. by eapply lookup_lt_Some.
    + done.
    + lia.
    + rewrite length_insert. lia.
Qed.

(** The same loop on a source that ends inside the range: [src[i]] raises at
    the first missing item.  Only [dst] has been written by then. *)
Lemma copy_loop_short n : forall i0 (h : heap) src k dst d off,
  h !! src = Some k -> h !! dst = Some d -> src <> dst ->
  (i0 <= length k < i0 + n)%nat -> (off + i0 + n <= length d)%nat ->
  exists h', for_from i0 n (fun i _ => v <- getitem src i ;; setitem dst (off + i) v) tt h
             = (Raise IndexError, h')
          /\ length h' = length h /\ forall r, r <> dst -> h' !! r = h !! r.
Proof.
  induction n as [|n IH]; intros i0 h src k dst d off Es Ed Hne Hk Hd; [lia|].
  cbn [for_from]. destruct (decide (i0 = length k)) as [->|Hlt].
  - exists h. split; [|done].
    apply bind_raise. apply bind_raise. by eapply getitem_IndexError.
  - erewrite bind_ok.
    2:{ erewrite bind_ok by (eapply getitem_ok; [exact Es | lia]).
        eapply setitem_ok; [exact Ed | lia]. }
    destruct (IH (S i0) (<[dst := <[(off + i0)%nat := k !!! i0]> d]> h)
                 src k dst (<[(off + i0)%nat := k !!! i0]> d) off)
      as (h' & Hrun & Hlen & Hfr).
    + by rewrite list_lookup_insert_ne.
    + apply list_lookup_insert_eq. by eapply lookup_lt_Some.
    + done.
    + lia.
    + rewrite length_insert. lia.
    + exists h'. split; [exact Hrun|]. split.
      * by rewrite Hlen, length_insert.
      * intros r Hr. rewrite Hfr by done. by rewrite list_lookup_insert_ne.
Qed.

(** Lines 35-36: the three fixed ones. *)
Lemma ones_loop_run (h : heap) dst d :
  h !! dst = Some d -> length d = 288%nat ->
  for_range 3 (fun i _ => setitem dst (285 + i) 1) tt h
  = (Ok tt, <[dst := <[287%nat := 1]> (<[286%nat := 1]> (<[285%nat := 1]> d))]> h).
Proof.
  intros Ed Hd. pose proof (lookup_lt_Some _ _ _ Ed) as Hlt.
  unfold for_range. cbn [for_from].
  erewrite bind_ok by (eapply setitem_ok; [exact Ed | lia]).
  erewrite bind_ok.
  2:{ eapply setitem_ok; [by apply list_lookup_insert_eq|].
      rewrite length_insert. lia. }
  erewrite bind_ok.
  2:{ eapply setitem_ok; [by apply list_lookup_insert_eq; rewrite length_insert|].
      rewrite !length_insert. lia. }
  unfold ret. by rewrite !list_insert_insert_eq.
Qed.

Lemma length_init_state k v :
  (80 <= length k)%nat -> (80 <= length v)%nat -> length (init_state k v) = 288%nat.
Proof.
  intros Hk Hv. unfold init_state.
  rewrite !length_app, !length_take, !length_replicate. cbn [length]. lia.
Qed.

Lemma load_key_iv_run (h : heap) key iv k v :
  h !! key = Some k -> h !! iv = Some v ->
  (80 <= length k)%nat -> (80 <= length v)%nat ->
  load_key_iv key iv h = (Ok (length h), h ++ [init_state k v]).
Proof.
  intros Ek Ev Hk Hv.
  pose proof (lookup_lt_Some _ _ _ Ek) as Hkey.
  pose proof (lookup_lt_Some _ _ _ Ev) as Hiv.
  set (z := replicate 288 0).
  assert (Hz : z = replicate 80 0 ++ replicate 13 0 ++ replicate 80 0
                   ++ replicate 112 0 ++ [0; 0; 0]) by reflexivity.
  unfold load_key_iv, for_range.
  erewrite bind_ok by reflexivity. fold z.
  erewrite bind_ok.
  2:{ apply (copy_loop_run 80 0 (h ++ [z]) key k (length h) z 0).
      - by rewrite lookup_app_l.
      - apply list_lookup_middle. reflexivity.
      - lia.
      - lia.
      - unfold z. rewrite length_replicate. lia. }
  set (d1 := splice (0 + 0) (take 80 (drop 0 k)) z).
  assert (Hd1 : d1 = take 80 k ++ replicate 13 0 ++ replicate 80 0
                     ++ replicate 112 0 ++ [0; 0; 0]).
  { unfold d1. rewrite Hz. cbn [Nat.add drop].
    apply (splice_middle 0 (take 80 k) [] (replicate 80 0)); [done|].
    rewrite length_take, length_replicate. lia. }
  assert (Hh1 : <[length h := d1]> (h ++ [z]) = h ++ [d1]).
  { replace (length h) with (length h + 0)%nat at 1 by lia.
    by rewrite insert_app_r. }
  rewrite Hh1.
  erewrite bind_ok.
  2:{ apply (copy_loop_run 80 0 (h ++ [d1]) iv v (length h) d1 93).
      - by rewrite lookup_app_l.
      - apply list_lookup_middle. reflexivity.
      - lia.
      - lia.
      - rewrite Hd1, !length_app, length_take, !length_replicate. cbn [length]. lia. }
  set (d2 := splice (93 + 0) (take 80 (drop 0 v)) d1).
  assert (Hd2 : d2 = take 80 k ++ replicate 13 0 ++ take 80 v
                     ++ replicate 112 0 ++ [0; 0; 0]).
  { unfold d2. rewrite Hd1. cbn [drop].
    transitivity ((take 80 k ++ replicate 13 0) ++ take 80 v
                    ++ replicate 112 0 ++ [0; 0; 0]); [|by rewrite <- app_assoc].
    rewrite <- (splice_middle (93 + 0) (take 80 v) (take 80 k ++ replicate 13 0)
                  (replicate 80 0)).
    - by rewrite <- app_assoc.
    - rewrite length_app, length_take, length_replicate. lia.
    - rewrite length_take, length_replicate. lia. }
  assert (Hh2 : <[length h := d2]> (h ++ [d1]) = h ++ [d2]).
  { replace (length h) with (length h + 0)%nat at 1 by lia.
    by rewrite insert_app_r. }
  rewrite Hh2.
  assert (Hlen2 : length d2 = 288%nat).
  { rewrite Hd2, !length_app, !length_take, !length_replicate. cbn [length]. lia. }
  erewrite bind_ok.
  2:{ apply (ones_loop_run (h ++ [d2]) (length h) d2); [|done].
      apply list_lookup_middle. reflexivity. }
  unfold ret. f_equal.
  replace (length h) with (length h + 0)%nat at 1 by lia.
  rewrite insert_app_r. cbn [list_insert insert]. do 2 f_equal.
  unfold init_state. rewrite Hd2.
  set (p := take 80 k ++ replicate 13 0 ++ take 80 v ++ replicate 112 0).
  assert (Hp : length p = 285%nat).
  { unfold p. rewrite !length_app, !length_take, !length_replicate. lia. }
  replace (take 80 k ++ replicate 13 0 ++ take 80 v ++ replicate 112 0 ++ [0; 0; 0])
    with (p ++ [0; 0; 0]) by (unfold p; by rewrite <- !app_assoc).
  replace (take 80 k ++ replicate 13 0 ++ take 80 v ++ replicate 112 0 ++ [1; 1; 1])
    with (p ++ [1; 1; 1]) by (unfold p; by rewrite <- !app_assoc).
  rewrite (insert_app_r_alt p _ 285) by lia.
  rewrite (insert_app_r_alt p _ 286) by lia.
  rewrite (insert_app_r_alt p _ 287) by lia.
  rewrite Hp. reflexivity.
Qed.

Lemma warm_up_run (h : heap) state s :
  h !! state = Some s -> length s = 288%nat ->
  warm_up state h
  = (Ok (length h + 1151)%nat, h ++ orbit Z.lxor Z.land 1152 s).
Proof.
  intros E Hs. unfold warm_up, for_range.
  change (4 * 288)%nat with 1152%nat.
  exact (warmup_loop_run 1152 0 h state s E Hs).
Qed.

(** A successful construction: the loaded register, then the 1152 register
    contents of the warm-up, each in a list of its own. *)
Lemma key_iv_setup_run (h : heap) key iv k v :
  h !! key = Some k -> h !! iv = Some v ->
  (80 <= length k)%nat -> (80 <= length v)%nat ->
  key_iv_setup key iv h
  = (Ok (length h + 1152)%nat,
     h ++ init_state k v :: orbit Z.lxor Z.land 1152 (init_state k v)).
Proof.
  intros Ek Ev Hk Hv. unfold key_iv_setup.
  rewrite (bind_ok _ _ _ _ _ (load_key_iv_run h key iv k v Ek Ev Hk Hv)).
  rewrite (warm_up_run _ (length h) (init_state k v)).
  - rewrite length_app, <- app_assoc. cbn [length app]. do 2 f_equal. lia.
  - apply list_lookup_middle. reflexivity.
  - by apply length_init_state.
Qed.

(** ** Cell by cell: what one clock leaves where *)
Section ClockCells.
Context {B : Type} `{!Inhabited B} (bxor band : B -> B -> B).

Abbreviation clk := (forward_clock_spec bxor band).

Lemma clock_lookup_0 (s : list B) : clk s !! 0%nat = Some (tap3 bxor band s).
Proof. reflexivity. Qed.

Lemma clock_lookup_93 (s : list B) : clk s !! 93%nat = Some (tap1 bxor band s).
Proof.
  unfold forward_clock_spec.
  rewrite lookup_cons_ne_0, lookup_app_r by (rewrite ?length_cells; cbn; lia).
  rewrite length_cells. reflexivity.
Qed.

Lemma clock_lookup_177 (s : list B) : clk s !! 177%nat = Some (tap2 bxor band s).
Proof.
  unfold forward_clock_spec.
  rewrite lookup_cons_ne_0, lookup_app_r by (rewrite ?length_cells; cbn; lia).
  rewrite length_cells.
  rewrite lookup_cons_ne_0, lookup_app_r by (rewrite ?length_cells; cbn; lia).
  rewrite length_cells. reflexivity.
Qed.

Lemma lookup_cons_S (x : B) (l : list B) i : (x :: l) !! S i = l !! i.
Proof. reflexivity. Qed.

Lemma clock_lookup_S (s : list B) i :
  clk s !! S i
  = (cells 0 91 s ++ tap1 bxor band s :: cells 93 175 s
       ++ tap2 bxor band s :: cells 177 286 s) !! i.
Proof. reflexivity. Qed.

Lemma clock_lookup_A (s : list B) i :
  length s = 288%nat -> (i < 92)%nat -> clk s !! S i = s !! i.
Proof.
  intros Hs Hi. rewrite clock_lookup_S.
  rewrite lookup_app_l by (rewrite length_cells; lia).
  rewrite lookup_cells by lia. cbn [Nat.add].
  symmetry. apply list_lookup_lookup_total_lt. lia.
Qed.

Lemma clock_lookup_B (s : list B) i :
  length s = 288%nat -> (93 <= i < 176)%nat -> clk s !! S i = s !! i.
Proof.
  intros Hs Hi. rewrite clock_lookup_S.
  rewrite lookup_app_r by (rewrite length_cells; lia).
  rewrite length_cells.
  replace (i - (92 - 0))%nat with (S (i - 93)) by lia.
  rewrite lookup_cons_S.
  rewrite lookup_app_l by (rewrite length_cells; lia).
  rewrite lookup_cells by lia.
  replace (93 + (i - 93))%nat with i by lia.
  symmetry. apply list_lookup_lookup_total_lt. lia.
Qed.

Lemma clock_lookup_C (s : list B) i :
  length s = 288%nat -> (177 <= i < 287)%nat -> clk s !! S i = s !! i.
Proof.
  intros Hs Hi. rewrite clock_lookup_S.
  rewrite lookup_app_r by (rewrite length_cells; lia).
  rewrite length_cells.
  replace (i - (92 - 0))%nat with (S (i - 93)) by lia.
  rewrite lookup_cons_S.
  rewrite lookup_app_r by (rewrite length_cells; lia).
  rewrite length_cells.
  replace (i - 93 - (176 - 93))%nat with (S (i - 177)) by lia.
  rewrite lookup_cons_S.
  rewrite lookup_cells by lia.
  replace (177 + (i - 177))%nat with i by lia.
  symmetry. apply list_lookup_lookup_total_lt. lia.
Qed.
End ClockCells.

(** ** The claims about cl_trivium.py *)

(** C1.  One forward clock (the body of the warm-up loop) on a 288-cell
    state reads t1, t2, t3 from the pre-update cells and binds [state] to a
    new list: t3, old cells 0..91, t1, old cells 93..175, t2, old cells
    177..286.  So cell 0 is t3, cell 93 is t1, cell 177 is t2, every other
    cell [i + 1] is the old cell [i], and the old cells 92, 176 and 287 are
    dropped. *)
Theorem warmup_clock_forward (h : heap) (state : ref) (s : list Z) :
  h !! state = Some s -> length s = 288%nat ->
  let t1 := s !!! 65%nat .^ (s !!! 90%nat .& s !!! 91%nat) .^ s !!! 92%nat .^ s !!! 170%nat in
  let t2 := s !!! 161%nat .^ (s !!! 174%nat .& s !!! 175%nat) .^ s !!! 176%nat .^ s !!! 263%nat in
  let t3 := s !!! 242%nat .^ (s !!! 285%nat .& s !!! 286%nat) .^ s !!! 287%nat .^ s !!! 68%nat in
  exists s' : list Z,
    warmup_clock state h = (Ok (length h), h ++ [s'])
    /\ s' = [t3] ++ cells 0 91 s ++ [t1] ++ cells 93 175 s ++ [t2] ++ cells 177 286 s
    /\ length s' = 288%nat
    /\ s' !! 0%nat = Some t3
    /\ (forall i, (i < 92)%nat -> s' !! S i = s !! i)
    /\ s' !! 93%nat = Some t1
    /\ (forall i, (93 <= i < 176)%nat -> s' !! S i = s !! i)
    /\ s' !! 177%nat = Some t2
    /\ (forall i, (177 <= i < 287)%nat -> s' !! S i = s !! i).
Proof.
  intros E Hs t1 t2 t3. exists (clockZ s).
  split; [by apply warmup_clock_run|].
  split; [reflexivity|].
  split; [apply length_forward_clock_spec|].
  split; [exact (clock_lookup_0 Z.lxor Z.land s)|].
  split; [intros i Hi; by apply clock_lookup_A|].
  split; [exact (clock_lookup_93 Z.lxor Z.land s)|].
  split; [intros i Hi; by apply clock_lookup_B|].
  split; [exact (clock_lookup_177 Z.lxor Z.land s)|].
  intros i Hi; by apply clock_lookup_C.
Qed.

Lemma warmup_clock_forward_witness :
  exists s' : list Z,
    warmup_clock 0%nat [replicate 288 1] = (Ok 1%nat, [replicate 288 1] ++ [s'])
    /\ s' !! 0%nat = Some 0 /\ s' !! 93%nat = Some 0 /\ s' !! 177%nat = Some 0.
Proof.
  destruct (warmup_clock_forward [replicate 288 1] 0%nat (replicate 288 1))
    as (s' & Hrun & _ & _ & H0 & _ & H93 & _ & H177 & _);
    [reflexivity | reflexivity |].
  exists s'. split; [exact Hrun|]. split; [exact H0|]. split; [exact H93 | exact H177].
Defined.

(** C2.  One keystream clock (the body of the keystream loop at index [i])
    on a 288-cell state stores into [keystream[i]] the bit
    s65 ^ s92 ^ s161 ^ s176 ^ s242 ^ s287 of the pre-update cells and binds
    [state] to a new list with the contents the warm-up clock builds from the
    same state: the two clocks are the same transition of the register. *)
Theorem keystream_clock_same_transition
    (h : heap) (keystream : ref) (ksl : list Z) (i : nat) (state : ref) (s : list Z) :
  h !! state = Some s -> length s = 288%nat ->
  h !! keystream = Some ksl -> (i < length ksl)%nat -> state <> keystream ->
  let z := s !!! 65%nat .^ s !!! 92%nat .^ s !!! 161%nat .^ s !!! 176%nat
             .^ s !!! 242%nat .^ s !!! 287%nat in
  exists s' : list Z,
    keystream_clock keystream i state h
      = (Ok (length h), <[keystream := <[i := z]> ksl]> h ++ [s'])
    /\ warmup_clock state h = (Ok (length h), h ++ [s'])
    /\ s' = clockZ s.
Proof.
  intros E Hs Ek Hi Hne z. exists (clockZ s).
  split; [by apply keystream_clock_run|].
  split; [by apply warmup_clock_run | reflexivity].
Qed.

Lemma keystream_clock_same_transition_witness :
  exists s' : list Z,
    keystream_clock 1%nat 0%nat 0%nat [replicate 288 1; [0]]
      = (Ok 2%nat, [replicate 288 1; [0]] ++ [s'])
    /\ warmup_clock 0%nat [replicate 288 1; [0]]
      = (Ok 2%nat, [replicate 288 1; [0]] ++ [s']).
Proof.
  destruct (keystream_clock_same_transition
              [replicate 288 1; [0]] 1%nat [0] 0%nat 0%nat (replicate 288 1))
    as (s' & Hks & Hwu & _);
    [reflexivity | reflexivity | reflexivity | cbn; lia | discriminate |].
  exists s'. split; [exact Hks | exact Hwu].
Defined.

(** The cells of the loaded register. *)
Section InitCells.
Variables k v : list Z.
Hypothesis Hk : (80 <= length k)%nat.
Hypothesis Hv : (80 <= length v)%nat.

Lemma init_state_key i : (i < 80)%nat -> init_state k v !! i = k !! i.
Proof using Hk Hv.
  intros Hi. unfold init_state.
  rewrite lookup_app_l by (rewrite length_take; lia).
  by apply lookup_take_lt.
Qed.

Lemma init_state_gap1 i : (80 <= i < 93)%nat -> init_state k v !! i = Some 0.
Proof using Hk Hv.
  intros Hi. unfold init_state.
  rewrite lookup_app_r by (rewrite length_take; lia).
  rewrite lookup_app_l by (rewrite length_take, length_replicate; lia).
  apply lookup_replicate_2. rewrite length_take. lia.
Qed.

Lemma init_state_iv i : (i < 80)%nat -> init_state k v !! (93 + i)%nat = v !! i.
Proof using Hk Hv.
  intros Hi. unfold init_state.
  rewrite lookup_app_r by (rewrite length_take; lia).
  rewrite lookup_app_r by (rewrite length_take, length_replicate; lia).
  rewrite lookup_app_l by (rewrite !length_take, length_replicate; lia).
  rewrite length_take, length_replicate.
  replace (93 + i - 80 `min` length k - 13)%nat with i by lia.
  by apply lookup_take_lt.
Qed.

Lemma init_state_gap2 i : (173 <= i < 285)%nat -> init_state k v !! i = Some 0.
Proof using Hk Hv.
  intros Hi. unfold init_state.
  rewrite lookup_app_r by (rewrite length_take; lia).
  rewrite lookup_app_r by (rewrite length_take, length_replicate; lia).
  rewrite lookup_app_r by (rewrite !length_take, length_replicate; lia).
  rewrite lookup_app_l by (rewrite !length_take, !length_replicate; lia).
  apply lookup_replicate_2. rewrite !length_take, length_replicate. lia.
Qed.

Lemma init_state_ones i : (285 <= i < 288)%nat -> init_state k v !! i = Some 1.
Proof using Hk Hv.
  intros Hi. unfold init_state.
  rewrite lookup_app_r by (rewrite length_take; lia).
  rewrite lookup_app_r by (rewrite length_take, length_replicate; lia).
  rewrite lookup_app_r by (rewrite !length_take, length_replicate; lia).
  rewrite lookup_app_r by (rewrite !length_take, !length_replicate; lia).
  rewrite !length_take, !length_replicate.
  replace (i - 80 `min` length k - 13 - 80 `min` length v - 112)%nat
    with (i - 285)%nat by lia.
  destruct (decide (i = 285%nat)) as [->|]; [done|].
  destruct (decide (i = 286%nat)) as [->|]; [done|].
  replace i with 287%nat by lia. done.
Qed.
End InitCells.

Lemma orbit_last {B} `{!Inhabited B} (bxor band : B -> B -> B) (h : list (list B)) n s :
  (h ++ s :: orbit bxor band n s) !! (length h + n)%nat
  = Some (Nat.iter n (forward_clock_spec bxor band) s).
Proof.
  rewrite lookup_app_r by lia. replace (length h + n - length h)%nat with n by lia.
  destruct n as [|n]; [done|]. rewrite lookup_cons_ne_0 by done. cbn [pred].
  unfold orbit. rewrite list_lookup_fmap, lookup_seq_lt by lia. reflexivity.
Qed.

Lemma warmed_zero_state :
  forallb (Z.eqb 0) (Nat.iter 1152 clockZ (init_state (replicate 80 0) (replicate 80 0)))
  = false.
Proof. vm_compute. reflexivity. Qed.

(** C3.  For an 80-bit key and an 80-bit IV the construction first builds a
    288-cell list holding the key in cells 0..79, the IV in cells 93..172,
    ones in cells 285, 286, 287 and zeros everywhere else, and then runs the
    forward clock exactly 1152 times, each clock on the list the previous one
    built; the state it returns is the last of them.  With an all-zero key and
    IV the three ones are still there before the warm-up, and the state after
    it is not all-zero. *)
Theorem key_iv_setup_construction (h : heap) (key iv : ref) (k v : list Z) :
  h !! key = Some k -> h !! iv = Some v ->
  length k = 80%nat -> length v = 80%nat ->
  exists s0 : list Z,
    load_key_iv key iv h = (Ok (length h), h ++ [s0])
    /\ length s0 = 288%nat
    /\ (forall i, (i < 80)%nat -> s0 !! i = k !! i)
    /\ (forall i, (i < 80)%nat -> s0 !! (93 + i)%nat = v !! i)
    /\ (forall i, (285 <= i < 288)%nat -> s0 !! i = Some 1)
    /\ (forall i, (80 <= i < 93)%nat \/ (173 <= i < 285)%nat -> s0 !! i = Some 0)
    /\ key_iv_setup key iv h
       = (Ok (length h + 1152)%nat, h ++ s0 :: orbit Z.lxor Z.land 1152 s0)
    /\ (h ++ s0 :: orbit Z.lxor Z.land 1152 s0) !! (length h + 1152)%nat
       = Some (Nat.iter 1152 clockZ s0)
    /\ (k = replicate 80 0 -> v = replicate 80 0 ->
        Nat.iter 1152 clockZ s0 <> replicate 288 0).
Proof.
  intros Ek Ev Hk Hv. exists (init_state k v).
  assert (Hk' : (80 <= length k)%nat) by lia.
  assert (Hv' : (80 <= length v)%nat) by lia.
  split; [by apply load_key_iv_run|].
  split; [by apply length_init_state|].
  split; [intros i Hi; by apply init_state_key|].
  split; [intros i Hi; by apply init_state_iv|].
  split; [intros i Hi; by apply init_state_ones|].
  split; [intros i [Hi|Hi]; [by apply init_state_gap1 | by apply init_state_gap2]|].
  split; [by apply key_iv_setup_run|].
  split; [apply orbit_last|].
  intros -> -> Hz. pose proof warmed_zero_state as Hnz.
  rewrite Hz in Hnz. vm_compute in Hnz. discriminate Hnz.
Qed.

Lemma key_iv_setup_construction_witness :
  exists s0 : list Z,
    key_iv_setup 0%nat 0%nat [replicate 80 0]
    = (Ok 1153%nat, [replicate 80 0] ++ s0 :: orbit Z.lxor Z.land 1152 s0)
    /\ s0 !! 287%nat = Some 1
    /\ Nat.iter 1152 clockZ s0 <> replicate 288 0.
Proof.
  destruct (key_iv_setup_construction [replicate 80 0] 0%nat 0%nat
              (replicate 80 0) (replicate 80 0))
    as (s0 & _ & _ & _ & _ & Hones & _ & Hrun & _ & Hnz);
    [reflexivity | reflexivity | reflexivity | reflexivity |].
  exists s0. split; [exact Hrun|]. split; [apply Hones; lia|].
  apply Hnz; reflexivity.
Defined.

(** ** Bits stay bits *)

Lemma is_bit_lxor x y : is_bit x -> is_bit y -> is_bit (x .^ y).
Proof. intros [->| ->] [->| ->]; cbn; unfold is_bit; auto. Qed.

Lemma is_bit_land x y : is_bit x -> is_bit y -> is_bit (x .& y).
Proof. intros [->| ->] [->| ->]; cbn; unfold is_bit; auto. Qed.

Lemma is_bit_lookup_total (s : list Z) i : Forall is_bit s -> is_bit (s !!! i).
Proof.
  intros Hs. rewrite list_lookup_total_alt.
  destruct (s !! i) as [x|] eqn:E; cbn.
  - exact (Forall_lookup_1 _ _ _ _ Hs E).
  - by right.
Qed.

Lemma is_bit_cells lo hi (s : list Z) : Forall is_bit s -> Forall is_bit (cells lo hi s).
Proof.
  intros Hs. unfold cells. apply Forall_fmap, Forall_forall.
  intros i _. by apply is_bit_lookup_total.
Qed.

Lemma is_bit_clock (s : list Z) : Forall is_bit s -> Forall is_bit (clockZ s).
Proof.
  intros Hs. unfold forward_clock_spec, tap1, tap2, tap3.
  assert (Ht : forall a b c d e, is_bit (s !!! a .^ (s !!! b .& s !!! c) .^ s !!! d .^ s !!! e)).
  { intros. repeat first [ apply is_bit_lxor | apply is_bit_land
                         | by apply is_bit_lookup_total ]. }
  apply Forall_cons_2; [apply Ht|].
  apply Forall_app_2; [by apply is_bit_cells|].
  apply Forall_cons_2; [apply Ht|].
  apply Forall_app_2; [by apply is_bit_cells|].
  apply Forall_cons_2; [apply Ht|].
  by apply is_bit_cells.
Qed.

Lemma is_bit_iter_clock n (s : list Z) :
  Forall is_bit s -> Forall is_bit (Nat.iter n clockZ s).
Proof.
  intros Hs. induction n as [|n IH]; [done|].
  apply (is_bit_clock (Nat.iter n clockZ s)), IH.
Qed.

Lemma is_bit_out (s : list Z) : Forall is_bit s -> is_bit (outZ s).
Proof.
  intros Hs. unfold output_bit_spec.
  repeat first [ apply is_bit_lxor | by apply is_bit_lookup_total ].
Qed.

Lemma is_bit_stream n (s : list Z) :
  Forall is_bit s -> Forall is_bit (stream_spec Z.lxor Z.land n s).
Proof.
  intros Hs. unfold stream_spec. apply Forall_fmap, Forall_forall.
  intros j _. cbn. by apply is_bit_out, is_bit_iter_clock.
Qed.

Lemma lookup_stream_spec {B} `{!Inhabited B} (bxor band : B -> B -> B) n s i :
  (i < n)%nat ->
  stream_spec bxor band n s !! i
  = Some (output_bit_spec bxor (Nat.iter i (forward_clock_spec bxor band) s)).
Proof.
  intros Hi. unfold stream_spec. by rewrite list_lookup_fmap, lookup_seq_lt.
Qed.

(** ** What a computation leaves alone *)

Lemma frames_ret {A} n (a : A) : frames n (ret a).
Proof. by intros h Hn. Qed.

Lemma frames_raise {A} n e : frames n (@raise A e).
Proof. by intros h Hn. Qed.

Lemma frames_bind {A B} n (m : Py A) (k : A -> Py B) :
  frames n m -> (forall a, frames n (k a)) -> frames n (bind m k).
Proof.
  intros Hm Hk h Hn. unfold bind. destruct (Hm h Hn) as [Hlen Hfr].
  destruct (m h) as [[a|e] h']; cbn in *; [|done].
  destruct (Hk a h' Hlen) as [Hlen' Hfr']. split; [done|].
  intros r Hr. by rewrite Hfr', Hfr.
Qed.

Lemma frames_load n r : frames n (load r).
Proof. intros h Hn. unfold load. by destruct (h !! r). Qed.

Lemma frames_getitem n r i : frames n (getitem r i).
Proof.
  apply frames_bind; [apply frames_load|]. intros l.
  destruct (l !! i); [apply frames_ret | apply frames_raise].
Qed.

Lemma frames_getslice n r lo hi : frames n (getslice r lo hi).
Proof. apply frames_bind; [apply frames_load|]. intros l. apply frames_ret. Qed.

Lemma frames_new_list n l : frames n (new_list l).
Proof.
  intros h Hn. cbn. rewrite length_app. split; [lia|].
  intros r Hr. apply lookup_app_l. lia.
Qed.

Lemma frames_setitem n r i v : (n <= r)%nat -> frames n (setitem r i v).
Proof.
  intros Hr. apply frames_bind; [apply frames_load|]. intros l.
  case_decide; [|apply frames_raise].
  intros h Hn. cbn. rewrite length_insert. split; [done|].
  intros r' Hr'. apply list_lookup_insert_ne. lia.
Qed.

Lemma frames_for_from {A} n k : forall i0 (body : nat -> A -> Py A) a,
  (forall i a, frames n (body i a)) -> frames n (for_from i0 k body a).
Proof.
  induction k as [|k IH]; intros i0 body a Hb; cbn [for_from].
  - apply frames_ret.
  - apply frames_bind; [apply Hb|]. intros a'. by apply IH.
Qed.

Lemma frames_keystream_clock n keystream i state :
  (n <= keystream)%nat -> frames n (keystream_clock keystream i state).
Proof.
  intros Hk. unfold keystream_clock.
  repeat first
    [ apply frames_new_list
    | apply frames_bind; [first [ apply frames_getitem | apply frames_getslice
                                | by apply frames_setitem ]|]; intros ? ].
Qed.

(** No call of [key_stream_generation], normal or raising, changes an object
    that existed before it. *)
Lemma key_stream_generation_preserves (h : heap) state N r :
  (r < length h)%nat -> (key_stream_generation state N h).2 !! r = h !! r.
Proof.
  intros Hr. unfold key_stream_generation.
  erewrite bind_ok by reflexivity.
  set (h0 := h ++ [replicate (Z.to_nat N) 0]).
  assert (H0 : (length h <= length h0)%nat) by (unfold h0; rewrite length_app; lia).
  assert (Hf : frames (length h)
                 (for_range (Z.to_nat N) (keystream_clock (length h)) state ;;;
                  ret (length h))).
  { apply frames_bind; [|intros; apply frames_ret].
    apply frames_for_from. intros i a. by apply frames_keystream_clock. }
  destruct (Hf h0 H0) as [_ Hfr]. rewrite Hfr by done.
  unfold h0. by apply lookup_app_l.
Qed.


(** C9.  On a 288-cell state and for [N >= 0], [key_stream_generation]
    returns a new list of exactly [N] items; item [i] is the output bit of
    the [i]-th keystream clock, that is, of the register after [i] clocks, and
    the call allocates one list per clock; the items are bits when the state's
    are.  For [N = 0] the list is empty, no clock runs and the store only
    gains that empty list. *)
Theorem key_stream_generation_length (h : heap) (state : ref) (s : list Z) (N : Z) :
  h !! state = Some s -> length s = 288%nat -> 0 <= N ->
  exists ks : list Z,
    key_stream_generation state N h
    = (Ok (length h), h ++ ks :: orbit Z.lxor Z.land (Z.to_nat N) s)
    /\ Z.of_nat (length ks) = N
    /\ length (orbit Z.lxor Z.land (Z.to_nat N) s) = Z.to_nat N
    /\ (forall i, (i < Z.to_nat N)%nat -> ks !! i = Some (outZ (Nat.iter i clockZ s)))
    /\ (Forall is_bit s -> Forall is_bit ks)
    /\ (N = 0 -> ks = [] /\ key_stream_generation state N h = (Ok (length h), h ++ [[]])).
Proof.
  intros E Hs HN.
  pose proof (key_stream_generation_run h state s N E Hs) as Hrun.
  exists (stream_spec Z.lxor Z.land (Z.to_nat N) s).
  split; [exact Hrun|].
  split; [rewrite length_stream_spec; lia|].
  split; [apply length_orbit|].
  split; [intros i Hi; by apply lookup_stream_spec|].
  split; [by apply is_bit_stream|].
  intros ->. split; [reflexivity | exact Hrun].
Qed.

Lemma key_stream_generation_length_witness :
  exists ks : list Z,
    key_stream_generation 0%nat 2 [replicate 288 1]
    = (Ok 1%nat, [replicate 288 1] ++ ks :: orbit Z.lxor Z.land 2 (replicate 288 1))
    /\ Z.of_nat (length ks) = 2.
Proof.
  destruct (key_stream_generation_length [replicate 288 1] 0%nat (replicate 288 1) 2)
    as (ks & Hrun & Hlen & _); [reflexivity | reflexivity | lia |].
  exists ks. split; [exact Hrun | exact Hlen].
Defined.

(** C10.  [key_stream_generation] never writes to the list it is given.
    Whatever the arguments, and also when the call raises, every list that
    existed before the call is unchanged after it.  On a 288-cell state the
    reference still holds the same 288 cells, what is returned is the new
    keystream list, and the register after the last clock sits in a list of
    its own that is not returned. *)
Theorem key_stream_generation_frame (h : heap) (state : ref) (N : Z) :
  (forall r, (r < length h)%nat -> (key_stream_generation state N h).2 !! r = h !! r)
  /\ (forall s : list Z, h !! state = Some s -> length s = 288%nat ->
      exists (ks : ref) (h' : heap),
        key_stream_generation state N h = (Ok ks, h')
        /\ h' !! state = Some s
        /\ ks = length h
        /\ h' !! ks = Some (stream_spec Z.lxor Z.land (Z.to_nat N) s)
        /\ (0 < N -> h' !! (ks + Z.to_nat N)%nat = Some (Nat.iter (Z.to_nat N) clockZ s)
                     /\ (ks + Z.to_nat N)%nat <> ks)).
Proof.
  split; [intros r Hr; by apply key_stream_generation_preserves|].
  intros s E Hs. pose proof (lookup_lt_Some _ _ _ E) as Hst.
  exists (length h), (h ++ stream_spec Z.lxor Z.land (Z.to_nat N) s
                        :: orbit Z.lxor Z.land (Z.to_nat N) s).
  split; [by apply key_stream_generation_run|].
  split; [by rewrite lookup_app_l|].
  split; [reflexivity|].
  split; [apply list_lookup_middle; reflexivity|].
  intros HN. split; [|lia].
  rewrite lookup_app_r by lia.
  replace (length h + Z.to_nat N - length h)%nat with (S (Z.to_nat N - 1)) by lia.
  rewrite lookup_cons_S. unfold orbit.
  rewrite list_lookup_fmap, lookup_seq_lt by lia. cbn [fmap option_fmap option_map Nat.add].
  do 2 f_equal. lia.
Qed.

Lemma key_stream_generation_frame_witness :
  exists (ks : ref) (h' : heap),
    key_stream_generation 0%nat 2 [replicate 288 1] = (Ok ks, h')
    /\ h' !! 0%nat = Some (replicate 288 1).
Proof.
  destruct (key_stream_generation_frame [replicate 288 1] 0%nat 2) as [_ Hst].
  destruct (Hst (replicate 288 1)) as (ks & h' & Hrun & Hsame & _);
    [reflexivity | reflexivity |].
  exists ks, h'. split; [exact Hrun | exact Hsame].
Defined.

(** C8, as the code has it.  A negative length is not refused: [[0] * N] is
    the empty list and [range(N)] is empty, so the call returns a new empty
    keystream, runs no clock and changes no list, whatever [state] is. *)
Theorem key_stream_generation_negative (h : heap) (state : ref) (N : Z) :
  N < 0 ->
  key_stream_generation state N h = (Ok (length h), h ++ [[]]).
Proof.
  intros HN. unfold key_stream_generation.
  replace (Z.to_nat N) with 0%nat by lia. reflexivity.
Qed.

Lemma key_stream_generation_negative_witness :
  key_stream_generation 0%nat (-1) [replicate 288 1]
  = (Ok 1%nat, [replicate 288 1] ++ [[]]).
Proof. apply (key_stream_generation_negative [replicate 288 1] 0%nat (-1)). lia. Defined.

(** C8 as stated fails: the request for -1 bits returns normally. *)
Lemma key_stream_generation_negative_no_error :
  ~ (exists e h', key_stream_generation 0%nat (-1) [replicate 288 1] = (Raise e, h')).
Proof. intros (e & h' & H). vm_compute in H. discriminate H. Qed.

(** ** Construction and the lengths of key and IV *)

Lemma load_key_iv_short_key (h : heap) key iv k v :
  h !! key = Some k -> h !! iv = Some v -> (length k < 80)%nat ->
  exists h', load_key_iv key iv h = (Raise IndexError, h')
          /\ forall r, (r < length h)%nat -> h' !! r = h !! r.
Proof.
  intros Ek Ev Hk. pose proof (lookup_lt_Some _ _ _ Ek) as Hkey.
  set (z := replicate 288 0).
  destruct (copy_loop_short 80 0 (h ++ [z]) key k (length h) z 0)
    as (h' & Hrun & _ & Hfr).
  - by rewrite lookup_app_l.
  - apply list_lookup_middle. reflexivity.
  - lia.
  - lia.
  - unfold z. rewrite length_replicate. lia.
  - exists h'. split.
    + unfold load_key_iv, for_range. erewrite bind_ok by reflexivity. fold z.
      apply bind_raise. exact Hrun.
    + intros r Hr. rewrite Hfr by lia. by rewrite lookup_app_l.
Qed.

Lemma load_key_iv_short_iv (h : heap) key iv k v :
  h !! key = Some k -> h !! iv = Some v ->
  (80 <= length k)%nat -> (length v < 80)%nat ->
  exists h', load_key_iv key iv h = (Raise IndexError, h')
          /\ forall r, (r < length h)%nat -> h' !! r = h !! r.
Proof.
  intros Ek Ev Hk Hv.
  pose proof (lookup_lt_Some _ _ _ Ek) as Hkey.
  pose proof (lookup_lt_Some _ _ _ Ev) as Hiv.
  set (z := replicate 288 0).
  set (d1 := splice (0 + 0) (take 80 (drop 0 k)) z).
  assert (Hd1 : length d1 = 288%nat).
  { unfold d1. rewrite length_splice; [done|].
    cbn [drop Nat.add]. rewrite length_take. unfold z. rewrite length_replicate. lia. }
  destruct (copy_loop_short 80 0 (<[length h := d1]> (h ++ [z])) iv v (length h) d1 93)
    as (h' & Hrun & _ & Hfr).
  - rewrite list_lookup_insert_ne by lia. by rewrite lookup_app_l.
  - apply list_lookup_insert_eq. rewrite length_app. cbn. lia.
  - lia.
  - lia.
  - lia.
  - exists h'. split.
    + unfold load_key_iv, for_range. erewrite bind_ok by reflexivity. fold z.
      erewrite bind_ok.
      2:{ apply (copy_loop_run 80 0 (h ++ [z]) key k (length h) z 0).
          - by rewrite lookup_app_l.
          - apply list_lookup_middle. reflexivity.
          - lia.
          - lia.
          - unfold z. rewrite length_replicate. lia. }
      apply bind_raise. exact Hrun.
    + intros r Hr. rewrite Hfr by lia.
      rewrite list_lookup_insert_ne by lia. by rewrite lookup_app_l.
Qed.

Lemma init_state_take (k v : list Z) :
  init_state (take 80 k) (take 80 v) = init_state k v.
Proof. unfold init_state. by rewrite !take_take. Qed.

(** C7, as the code has it.  The lengths are never checked.  A key or an IV
    of fewer than 80 items makes [key[i]] or [iv[i]] raise [IndexError]; no
    state is returned and no list of the caller has changed.  A key and an IV
    of 80 items or more are accepted, and only their first 80 items are
    read. *)
Theorem key_iv_setup_lengths (h : heap) (key iv : ref) (k v : list Z) :
  h !! key = Some k -> h !! iv = Some v ->
  ((length k < 80)%nat \/ (length v < 80)%nat ->
     exists h', key_iv_setup key iv h = (Raise IndexError, h')
             /\ forall r, (r < length h)%nat -> h' !! r = h !! r)
  /\ ((80 <= length k)%nat -> (80 <= length v)%nat ->
     exists h', key_iv_setup key iv h = (Ok (length h + 1152)%nat, h')
             /\ h' !! (length h + 1152)%nat
                = Some (Nat.iter 1152 clockZ (init_state (take 80 k) (take 80 v)))
             /\ forall r, (r < length h)%nat -> h' !! r = h !! r).
Proof.
  intros Ek Ev. split.
  - intros Hshort.
    assert (exists h', load_key_iv key iv h = (Raise IndexError, h')
                    /\ forall r, (r < length h)%nat -> h' !! r = h !! r)
      as (h' & Hrun & Hfr).
    { destruct (decide (length k < 80)%nat) as [Hk|Hk].
      - by eapply load_key_iv_short_key.
      - destruct Hshort as [?|Hv]; [lia|].
        eapply load_key_iv_short_iv; [done | done | lia | done]. }
    exists h'. split; [|exact Hfr].
    unfold key_iv_setup. by apply bind_raise.
  - intros Hk Hv. eexists. split; [by eapply key_iv_setup_run|].
    split; [rewrite init_state_take; apply orbit_last|].
    intros r Hr. by rewrite lookup_app_l.
Qed.

Lemma key_iv_setup_lengths_witness :
  (exists h', key_iv_setup 0%nat 1%nat [replicate 79 0; replicate 80 0]
              = (Raise IndexError, h'))
  /\ (exists h', key_iv_setup 0%nat 1%nat [replicate 81 0; replicate 80 0]
                 = (Ok 1154%nat, h')).
Proof.
  split.
  - destruct (key_iv_setup_lengths [replicate 79 0; replicate 80 0] 0%nat 1%nat
                (replicate 79 0) (replicate 80 0) eq_refl eq_refl) as [Hshort _].
    destruct Hshort as (h' & Hrun & _); [left; cbn; lia|].
    exists h'. exact Hrun.
  - destruct (key_iv_setup_lengths [replicate 81 0; replicate 80 0] 0%nat 1%nat
                (replicate 81 0) (replicate 80 0) eq_refl eq_refl) as [_ Hlong].
    destruct Hlong as (h' & Hrun & _); [cbn; lia | cbn; lia |].
    exists h'. exact Hrun.
Defined.

(** C7 as stated fails: an 81-bit key is accepted. *)
Lemma key_iv_setup_accepts_81_bits :
  fst (key_iv_setup 0%nat 1%nat [replicate 81 0; replicate 80 0]) = Ok 1154%nat.
Proof. vm_compute. reflexivity. Qed.

(** ** Two requests on one state *)

Lemma length_iter_clock_S n (s : list Z) : length (Nat.iter (S n) clockZ s) = 288%nat.
Proof. apply (length_forward_clock_spec _ _ (Nat.iter n clockZ s)). Qed.

Lemma length_warmed k v : length (warmed k v) = 288%nat.
Proof. unfold warmed. exact (length_iter_clock_S 1151 (init_state k v)). Qed.

Lemma fresh_request_run (h : heap) key iv k v N :
  h !! key = Some k -> h !! iv = Some v ->
  (80 <= length k)%nat -> (80 <= length v)%nat ->
  fst (fresh_request key iv N h)
  = Ok (stream_spec Z.lxor Z.land (Z.to_nat N) (warmed k v)).
Proof.
  intros Ek Ev Hk Hv. unfold fresh_request.
  rewrite (bind_ok _ _ _ _ _ (key_iv_setup_run h key iv k v Ek Ev Hk Hv)).
  set (h1 := h ++ init_state k v :: orbit Z.lxor Z.land 1152 (init_state k v)).
  assert (E1 : h1 !! (length h + 1152)%nat = Some (warmed k v)) by apply orbit_last.
  rewrite (bind_ok _ _ _ _ _
             (key_stream_generation_run h1 _ _ N E1 (length_warmed k v))).
  erewrite load_ok; [reflexivity|]. apply list_lookup_middle. reflexivity.
Qed.

Lemma two_requests_run (h : heap) key iv k v N1 N2 :
  h !! key = Some k -> h !! iv = Some v ->
  (80 <= length k)%nat -> (80 <= length v)%nat ->
  fst (two_requests key iv N1 N2 h)
  = Ok (stream_spec Z.lxor Z.land (Z.to_nat N2) (warmed k v)).
Proof.
  intros Ek Ev Hk Hv. unfold two_requests.
  rewrite (bind_ok _ _ _ _ _ (key_iv_setup_run h key iv k v Ek Ev Hk Hv)).
  set (h1 := h ++ init_state k v :: orbit Z.lxor Z.land 1152 (init_state k v)).
  assert (E1 : h1 !! (length h + 1152)%nat = Some (warmed k v)) by apply orbit_last.
  rewrite (bind_ok _ _ _ _ _
             (key_stream_generation_run h1 _ _ N1 E1 (length_warmed k v))).
  set (h2 := h1 ++ _).
  assert (E2 : h2 !! (length h + 1152)%nat = Some (warmed k v)).
  { unfold h2. apply lookup_app_l_Some, E1. }
  rewrite (bind_ok _ _ _ _ _
             (key_stream_generation_run h2 _ _ N2 E2 (length_warmed k v))).
  erewrite load_ok; [reflexivity|]. apply list_lookup_middle. reflexivity.
Qed.

(** C5, as the code has it.  [key_stream_generation] neither changes its
    state argument nor returns the register it ends with, so a second request
    on the same state starts the keystream again: after [N1] bits, a request
    for [N2] bits yields the first [N2] bits of what a fresh setup with the
    same key and IV yields for [N1 + N2] bits, not the last [N2]. *)
Theorem second_request_restarts (h : heap) (key iv : ref) (k v : list Z) (N1 N2 : Z) :
  h !! key = Some k -> h !! iv = Some v ->
  (80 <= length k)%nat -> (80 <= length v)%nat ->
  0 <= N1 -> 0 <= N2 ->
  exists l2 l : list Z,
    fst (two_requests key iv N1 N2 h) = Ok l2
    /\ fst (fresh_request key iv (N1 + N2) h) = Ok l
    /\ l2 = take (Z.to_nat N2) l
    /\ fst (fresh_request key iv N2 h) = Ok l2.
Proof.
  intros Ek Ev Hk Hv HN1 HN2.
  exists (stream_spec Z.lxor Z.land (Z.to_nat N2) (warmed k v)),
         (stream_spec Z.lxor Z.land (Z.to_nat (N1 + N2)) (warmed k v)).
  split; [by apply two_requests_run|].
  split; [by apply fresh_request_run|].
  split; [|by apply fresh_request_run].
  symmetry. apply stream_spec_take. lia.
Qed.

Lemma second_request_restarts_witness :
  exists l2 l : list Z,
    fst (two_requests 0%nat 0%nat 2 1 [replicate 80 0]) = Ok l2
    /\ fst (fresh_request 0%nat 0%nat (2 + 1) [replicate 80 0]) = Ok l
    /\ l2 = take (Z.to_nat 1) l.
Proof.
  destruct (second_request_restarts [replicate 80 0] 0%nat 0%nat
              (replicate 80 0) (replicate 80 0) 2 1)
    as (l2 & l & H2 & Hl & Htake & _);
    [reflexivity | reflexivity | cbn; lia | cbn; lia | lia | lia |].
  exists l2, l. split; [exact H2|]. split; [exact Hl | exact Htake].
Defined.

(** C5 as stated fails: with the all-zero key and IV the keystream starts
    1, 1, 0; after a request for 2 bits a request for 1 bit returns [1], the
    first bit again, while the last bit of a fresh 3-bit request is [0]. *)
Lemma second_request_not_continuation :
  fst (two_requests 0%nat 0%nat 2 1 [replicate 80 0]) = Ok [1]
  /\ fst (fresh_request 0%nat 0%nat (2 + 1) [replicate 80 0]) = Ok [1; 1; 0]
  /\ [1] <> drop 2 [1; 1; 0].
Proof.
  split; [vm_compute; reflexivity|].
  split; [vm_compute; reflexivity|].
  cbn. discriminate.
Qed.

(** Lines 78-87 on the embedding: the 256 bits the script prints, as hex
    digits in generation order. *)
Lemma test_vector_keystream :
  fst (fresh_request 0%nat 0%nat 256 [test_key])
  = Ok (hex_bits [5; 3; 11; 1; 4; 2; 3; 0; 13; 8; 5; 12; 13; 2; 10; 5;
                  7; 13; 1; 7; 13; 14; 4; 11; 3; 2; 3; 14; 2; 12; 9; 9;
                  10; 14; 6; 6; 9; 13; 3; 10; 1; 6; 10; 3; 5; 14; 8; 9;
                  9; 6; 0; 6; 14; 11; 8; 5; 14; 13; 0; 7; 1; 4; 5; 9]).
Proof. vm_compute. reflexivity. Qed.

(** * The circuit: reversal and the clock it computes *)
Module GroverProofs.
Import Grover.

Lemma length_apply g σ : length (apply g σ) = length σ.
Proof. destruct g; cbn; by rewrite ?length_insert. Qed.

Lemma length_run qc σ : length (run qc σ) = length σ.
Proof.
  revert σ. induction qc as [|g qc IH]; intros σ; [done|].
  cbn. unfold run in IH. by rewrite IH, length_apply.
Qed.

Lemma run_app qc1 qc2 σ : run (qc1 ++ qc2) σ = run qc2 (run qc1 σ).
Proof. apply foldl_app. Qed.

Lemma xorb_cancel (a b : bool) : xorb (xorb a b) b = a.
Proof. by destruct a, b. Qed.

(** Every gate of the circuit is its own inverse. *)
Lemma apply_involutive g σ : gate_ok (length σ) g -> apply g (apply g σ) = σ.
Proof.
  destruct g as [c tg|c1 c2 tg|a b]; cbn.
  - intros (Hc & Htg & Hne).
    rewrite list_lookup_total_insert_eq by done.
    rewrite list_lookup_total_insert_ne by done.
    rewrite list_insert_insert_eq, xorb_cancel. apply list_insert_id.
    by apply list_lookup_lookup_total_lt.
  - intros (H1 & H2 & Htg & _ & Hne1 & Hne2).
    rewrite list_lookup_total_insert_eq by done.
    rewrite !list_lookup_total_insert_ne by done.
    rewrite list_insert_insert_eq, xorb_cancel. apply list_insert_id.
    by apply list_lookup_lookup_total_lt.
  - intros (Ha & Hb & Hne).
    rewrite list_lookup_total_insert_eq by (by rewrite length_insert).
    rewrite (list_lookup_total_insert_ne _ b a) by done.
    rewrite list_lookup_total_insert_eq by done.
    rewrite (list_insert_insert_ne _ b a) by done.
    rewrite list_insert_insert_eq.
    rewrite (list_insert_insert_ne _ a b) by done.
    rewrite list_insert_insert_eq.
    rewrite (list_insert_id σ a) by (by apply list_lookup_lookup_total_lt).
    apply list_insert_id. by apply list_lookup_lookup_total_lt.
Qed.

(** The reversed gate list undoes the circuit. *)
Lemma run_reverse qc : forall σ,
  Forall (gate_ok (length σ)) qc -> run (reverse qc) (run qc σ) = σ.
Proof.
  induction qc as [|g qc IH]; intros σ Hok; [done|].
  apply Forall_cons in Hok as [Hg Hqc].
  rewrite reverse_cons, run_app. cbn.
  change (foldl _ (apply g σ) qc) with (run qc (apply g σ)).
  rewrite IH by (by rewrite length_apply).
  by apply apply_involutive.
Qed.

Lemma for_each_S n (body : nat -> list gate) :
  for_each (S n) body = for_each n body ++ body n.
Proof.
  unfold for_each. rewrite seq_S, fmap_app, concat_app. cbn.
  by rewrite app_nil_r.
Qed.

Lemma for_each_S_l n (body : nat -> list gate) :
  for_each (S n) body = body 0%nat ++ for_each n (fun i => body (S i)).
Proof.
  unfold for_each. cbn [seq fmap list_fmap concat]. f_equal.
  by rewrite <- fmap_S_seq, <- list_fmap_compose.
Qed.

Lemma for_each_ext n (f g : nat -> list gate) :
  (forall i, (i < n)%nat -> f i = g i) -> for_each n f = for_each n g.
Proof.
  intros Hfg. unfold for_each. f_equal. apply list_fmap_ext.
  intros j i Hi. apply Hfg. apply lookup_seq in Hi. lia.
Qed.

Lemma for_each_reverse n (body : nat -> list gate) :
  reverse (for_each n body) = for_each n (fun i => reverse (body (n - 1 - i)%nat)).
Proof.
  induction n as [|n IH]; [done|].
  rewrite for_each_S, reverse_app, IH, for_each_S_l.
  f_equal; [do 2 f_equal; lia|].
  apply for_each_ext. intros i Hi. do 2 f_equal. lia.
Qed.

Lemma state_shifting_reverse a b tq :
  reverse (state_shifting a b tq) = state_shifting_left a b tq.
Proof.
  unfold state_shifting, state_shifting_left.
  by rewrite <- fmap_reverse, reverse_involutive.
Qed.

Lemma forward_round_reverse : reverse forward_round = inverse_round.
Proof. vm_compute. reflexivity. Qed.

Lemma keystream_round_reverse n i :
  reverse (keystream_round (n - 1 - i)) = inv_keystream_round n i.
Proof.
  unfold keystream_round, inv_keystream_round.
  rewrite !reverse_app, !state_shifting_reverse, <- !app_assoc. reflexivity.
Qed.

(** [inv_trivium] appends the gates of [trivium] in reverse order. *)
Lemma inv_trivium_reverse rounds n : inv_trivium rounds n = reverse (trivium rounds n).
Proof.
  unfold inv_trivium, trivium. rewrite reverse_app, !for_each_reverse.
  rewrite (for_each_ext n (fun i => reverse (keystream_round (n - 1 - i)))
             (inv_keystream_round n))
    by (intros; apply keystream_round_reverse).
  by rewrite <- forward_round_reverse.
Qed.

Lemma gate_ok_mono N N' g : (N <= N')%nat -> gate_ok N g -> gate_ok N' g.
Proof. intros HN. destruct g; cbn; intros; repeat split; lia. Qed.

Lemma Forall_for_each (P : gate -> Prop) n body :
  (forall i, (i < n)%nat -> Forall P (body i)) -> Forall P (for_each n body).
Proof.
  intros Hb. unfold for_each. apply Forall_concat, Forall_fmap, Forall_forall.
  intros i Hi. apply Hb. apply elem_of_seq in Hi. lia.
Qed.

Lemma forward_round_ok N : (291 <= N)%nat -> Forall (gate_ok N) forward_round.
Proof.
  intros HN. eapply Forall_impl; [|intros g; apply (gate_ok_mono 291 N g HN)].
  assert (H : bool_decide (Forall (gate_ok 291) forward_round) = true)
    by (vm_compute; reflexivity).
  by apply bool_decide_eq_true in H.
Qed.

Lemma state_shifting_ok N a b tq :
  (a < 288)%nat -> (288 <= tq < N)%nat -> Forall (gate_ok N) (state_shifting a b tq).
Proof.
  intros Ha Htq. unfold state_shifting. apply Forall_fmap, Forall_forall.
  intros j Hj. apply elem_of_reverse, elem_of_seq in Hj. unfold s.
  cbn. case_decide; cbn; lia.
Qed.

Lemma keystream_round_ok N n i :
  (291 + n <= N)%nat -> (i < n)%nat -> Forall (gate_ok N) (keystream_round i).
Proof.
  intros HN Hi. unfold keystream_round.
  repeat (apply Forall_app_2;
          [first [ apply state_shifting_ok; unfold t; lia
                 | repeat (apply Forall_cons_2; [unfold s, t, z; cbn; lia|]);
                   apply Forall_nil_2 ]|]).
  apply state_shifting_ok; unfold t; lia.
Qed.

Lemma trivium_ok N rounds n :
  (291 + n <= N)%nat -> Forall (gate_ok N) (trivium rounds n).
Proof.
  intros HN. unfold trivium. apply Forall_app_2; apply Forall_for_each.
  - intros _ _. apply forward_round_ok. lia.
  - intros i Hi. by eapply keystream_round_ok.
Qed.

(** Running [trivium] and then [inv_trivium] restores every qubit. *)
Lemma inv_trivium_run rounds n σ :
  (291 + n <= length σ)%nat ->
  run (inv_trivium rounds n) (run (trivium rounds n) σ) = σ.
Proof.
  intros Hσ. rewrite inv_trivium_reverse. apply run_reverse. by apply trivium_ok.
Qed.

(** A basis state of at least [n] qubits, its first [n] qubits listed. *)
Lemma expand_basis (σ : list bool) n :
  (n <= length σ)%nat -> σ = ((fun i => σ !!! i) <$> seq 0 n) ++ drop n σ.
Proof.
  intros Hn. rewrite <- (take_drop n σ) at 1. f_equal.
  destruct n as [|n]; [done|].
  apply (slice_cells 0 n σ); lia.
Qed.

Ltac case_qubits f :=
  repeat match goal with |- context [f ?i] => destruct (f i) end; reflexivity.

(** On the [s] register one initialisation round is the forward clock,
    whatever the [t] register holds. *)
Lemma forward_round_clock σ :
  (291 <= length σ)%nat ->
  take 288 (run forward_round σ) = forward_clock_spec xorb andb (take 288 σ).
Proof.
  intros H. rewrite (expand_basis σ 291 H).
  generalize (drop 291 σ) as rest. generalize (fun i => σ !!! i) as f. clear.
  intros f rest. vm_compute. repeat f_equal; case_qubits f.
Qed.

(** On the [s] register one inverse round is the inverse clock, whatever the
    [t] register holds. *)
Lemma inverse_round_clock σ :
  (291 <= length σ)%nat ->
  take 288 (run inverse_round σ) = inverse_clock_spec (take 288 σ).
Proof.
  intros H. rewrite (expand_basis σ 291 H).
  generalize (drop 291 σ) as rest. generalize (fun i => σ !!! i) as f. clear.
  intros f rest. vm_compute. reflexivity.
Qed.

Lemma trivium_1_0 : trivium 1 0 = forward_round.
Proof. unfold trivium, for_each. cbn [seq fmap list_fmap concat]. by rewrite !app_nil_r. Qed.

Lemma inv_trivium_1_0 : inv_trivium 1 0 = inverse_round.
Proof. unfold inv_trivium, for_each. cbn [seq fmap list_fmap concat app]. by rewrite !app_nil_r. Qed.

Lemma trivium_rounds_clock N σ :
  (291 <= length σ)%nat ->
  take 288 (run (trivium N 0) σ) = Nat.iter N (forward_clock_spec xorb andb) (take 288 σ).
Proof.
  intros H. unfold trivium. change (for_each 0 keystream_round) with (@nil gate).
  rewrite app_nil_r. induction N as [|N IH]; [done|].
  rewrite for_each_S, run_app, forward_round_clock by (by rewrite length_run).
  by rewrite IH.
Qed.

(** C4.  The inverse round of [inv_trivium] undoes the forward round of
    [trivium].  On the 288 qubits of [s] the forward round is the forward
    clock; the inverse round applied to any basis state whose [s] register
    holds the successor S' gives back S on [s], cell by cell, and as a
    function of S' alone it is the spec's inverse clock; N forward rounds are
    N forward clocks and N inverse rounds after them restore the whole basis
    state, also with [n] keystream rounds in between. *)
Theorem inv_trivium_inverts_clock (σ : list bool) (N : nat) :
  (291 <= length σ)%nat ->
  let S0 := take 288 σ in
  let S1 := take 288 (run (trivium 1 0) σ) in
  S1 = forward_clock_spec xorb andb S0
  /\ run (inv_trivium 1 0) (run (trivium 1 0) σ) = σ
  /\ (forall σ', (291 <= length σ')%nat -> take 288 σ' = S1 ->
        take 288 (run (inv_trivium 1 0) σ') = S0)
  /\ inverse_clock_spec S1 = S0
  /\ take 288 (run (trivium N 0) σ) = Nat.iter N (forward_clock_spec xorb andb) S0
  /\ run (inv_trivium N 0) (run (trivium N 0) σ) = σ
  /\ (forall n, (291 + n <= length σ)%nat ->
        run (inv_trivium N n) (run (trivium N n) σ) = σ).
Proof.
  intros H S0 S1.
  assert (Hback : run (inv_trivium 1 0) (run (trivium 1 0) σ) = σ)
    by (apply inv_trivium_run; lia).
  assert (Hinv : inverse_clock_spec S1 = S0).
  { unfold S1, S0. rewrite <- inverse_round_clock by (by rewrite length_run).
    by rewrite <- inv_trivium_1_0, Hback. }
  split; [unfold S1; rewrite trivium_1_0; by apply forward_round_clock|].
  split; [exact Hback|].
  split.
  { intros σ' H' E'. by rewrite inv_trivium_1_0, inverse_round_clock, E'. }
  split; [exact Hinv|].
  split; [by apply trivium_rounds_clock|].
  split; [apply inv_trivium_run; lia|].
  intros n Hn. by apply inv_trivium_run.
Qed.

Lemma inv_trivium_inverts_clock_witness :
  run (inv_trivium 1 0) (run (trivium 1 0) (replicate 291 true)) = replicate 291 true
  /\ run (inv_trivium 2 0) (run (trivium 2 0) (replicate 291 true)) = replicate 291 true.
Proof.
  destruct (inv_trivium_inverts_clock (replicate 291 true) 2)
    as (_ & H1 & _ & _ & _ & H2 & _).
  - rewrite length_replicate. lia.
  - split; [exact H1 | exact H2].
Defined.

(** The round trip in terms of register contents alone. *)
Lemma inverse_clock_forward_clock (S0 : list bool) :
  length S0 = 288%nat -> inverse_clock_spec (forward_clock_spec xorb andb S0) = S0.
Proof.
  intros HS. set (σ := S0 ++ [false; false; false]).
  assert (Hσ : (291 <= length σ)%nat) by (unfold σ; rewrite length_app; cbn; lia).
  assert (HS0 : take 288 σ = S0) by (unfold σ; by apply take_app_length').
  rewrite <- HS0 at 1. rewrite <- forward_round_clock by done.
  rewrite <- inverse_round_clock by (by rewrite length_run).
  rewrite <- trivium_1_0, <- inv_trivium_1_0, inv_trivium_run by lia.
  exact HS0.
Qed.

End GroverProofs.

(** * More on cl_trivium.py *)

(** ** States that are not 288 cells long *)

Section LongState.
Context {B : Type} `{!Inhabited B} (bxor band : B -> B -> B).

Lemma cells_take lo hi n (s : list B) :
  (hi < n)%nat -> cells lo hi (take n s) = cells lo hi s.
Proof.
  intros Hn. unfold cells. apply list_fmap_ext. intros j i Hi.
  apply lookup_seq in Hi. apply lookup_total_take_lt. lia.
Qed.

Lemma forward_clock_spec_take (s : list B) :
  forward_clock_spec bxor band (take 288 s) = forward_clock_spec bxor band s.
Proof.
  unfold forward_clock_spec, tap1, tap2, tap3.
  rewrite !cells_take by lia. by rewrite !lookup_total_take_lt by lia.
Qed.

Lemma output_bit_spec_take (s : list B) :
  output_bit_spec bxor (take 288 s) = output_bit_spec bxor s.
Proof. unfold output_bit_spec. by rewrite !lookup_total_take_lt by lia. Qed.

Lemma iter_clock_take n (s : list B) :
  Nat.iter (S n) (forward_clock_spec bxor band) (take 288 s)
  = Nat.iter (S n) (forward_clock_spec bxor band) s.
Proof.
  induction n as [|n IH]; [apply forward_clock_spec_take|].
  change (Nat.iter (S (S n)) ?f ?x) with (f (Nat.iter (S n) f x)). by rewrite IH.
Qed.

Lemma stream_spec_take_state n (s : list B) :
  stream_spec bxor band n (take 288 s) = stream_spec bxor band n s.
Proof.
  unfold stream_spec. apply list_fmap_ext. intros _ j _.
  destruct j as [|j]; [apply output_bit_spec_take|]. by rewrite iter_clock_take.
Qed.

Lemma orbit_take_state n (s : list B) :
  orbit bxor band n (take 288 s) = orbit bxor band n s.
Proof.
  unfold orbit. apply list_fmap_ext. intros _ j _. apply iter_clock_take.
Qed.
End LongState.

Lemma rotate_cells_ge (s : list Z) (t1 t2 t3 : Z) :
  (288 <= length s)%nat ->
  [t3] ++ take (92 - 0) (drop 0 s) ++ [t1] ++ take (176 - 93) (drop 93 s)
       ++ [t2] ++ take (287 - 177) (drop 177 s)
  = t3 :: cells 0 91 s ++ t1 :: cells 93 175 s ++ t2 :: cells 177 286 s.
Proof.
  intros Hs. rewrite <- !slice_cells by lia. reflexivity.
Qed.

Lemma warmup_clock_run_ge (h : heap) state s :
  h !! state = Some s -> (288 <= length s)%nat ->
  warmup_clock state h = (Ok (length h), h ++ [clockZ s]).
Proof.
  intros E Hs. unfold warmup_clock. py_read E.
  unfold new_list. by rewrite rotate_cells_ge.
Qed.

Lemma keystream_clock_run_ge (h : heap) keystream ksl i state s :
  h !! state = Some s -> (288 <= length s)%nat ->
  h !! keystream = Some ksl -> (i < length ksl)%nat -> state <> keystream ->
  keystream_clock keystream i state h
  = (Ok (length h), <[keystream := <[i := outZ s]> ksl]> h ++ [clockZ s]).
Proof.
  intros E Hs Ek Hi Hne. unfold keystream_clock. py_read E.
  erewrite bind_ok by (eapply setitem_ok; [exact Ek | exact Hi]).
  assert (E' : forall l, <[keystream := l]> h !! state = Some s).
  { intros l. by rewrite list_lookup_insert_ne. }
  py_read (E' (<[i := (s !!! 65%nat .^ s !!! 92%nat) .^ (s !!! 161%nat .^ s !!! 176%nat)
                       .^ (s !!! 242%nat .^ s !!! 287%nat)]> ksl)).
  unfold new_list. rewrite length_insert.
  rewrite rotate_cells_ge by done. unfold forward_clock_spec, tap1, tap2, tap3.
  rewrite lxor_out. do 4 f_equal; [apply lxor_taps|].
  do 2 f_equal; [apply lxor_taps|]. do 2 f_equal. apply lxor_taps.
Qed.

Lemma keystream_loop_run_ge n (h : heap) keystream ksl state s :
  h !! state = Some s -> (288 <= length s)%nat ->
  h !! keystream = Some ksl -> (n <= length ksl)%nat -> state <> keystream ->
  for_from 0 n (keystream_clock keystream) state h
  = (Ok (last_ref state (length h) n),
     <[keystream := splice 0 (stream_spec Z.lxor Z.land n s) ksl]> h
       ++ orbit Z.lxor Z.land n s).
Proof.
  intros E Hs Ek Hn Hne. pose proof (lookup_lt_Some _ _ _ Ek) as Hk.
  destruct n as [|n].
  - cbn. unfold ret. rewrite app_nil_r. change (stream_spec _ _ 0 s) with (@nil Z).
    by rewrite splice_nil, list_insert_id.
  - cbn [for_from].
    rewrite (bind_ok _ _ _ _ _
               (keystream_clock_run_ge h keystream ksl 0 state s E Hs Ek ltac:(lia) Hne)).
    rewrite (keystream_loop_run n 1 _ keystream (<[0%nat := outZ s]> ksl)
               (length h) (clockZ s)).
    + rewrite stream_spec_S, orbit_S.
      rewrite insert_app_l by (by rewrite length_insert).
      rewrite list_insert_insert_eq, splice_step by lia.
      rewrite <- app_assoc. cbn [app].
      rewrite length_app, length_insert. cbn [length].
      f_equal. f_equal. destruct n; cbn; lia.
    + rewrite <- (length_insert h keystream (<[0%nat := outZ s]> ksl)).
      apply list_lookup_middle. reflexivity.
    + apply length_forward_clock_spec.
    + rewrite lookup_app_l by (by rewrite length_insert).
      by apply list_lookup_insert_eq.
    + rewrite length_insert. lia.
    + lia.
Qed.

(** X1.  A state list of more than 288 items is accepted: the items from 288 on
    are never read and the first clock drops them, so the keystream is the
    one of the first 288 items. *)
Theorem key_stream_generation_long_state (h : heap) (state : ref) (s : list Z) (N : Z) :
  h !! state = Some s -> (288 <= length s)%nat ->
  key_stream_generation state N h
  = (Ok (length h),
     h ++ stream_spec Z.lxor Z.land (Z.to_nat N) (take 288 s)
       :: orbit Z.lxor Z.land (Z.to_nat N) (take 288 s))
  /\ Forall (fun s' => length s' = 288%nat) (orbit Z.lxor Z.land (Z.to_nat N) (take 288 s)).
Proof.
  intros E Hs. pose proof (lookup_lt_Some _ _ _ E) as Hst. split.
  - rewrite stream_spec_take_state, orbit_take_state.
    unfold key_stream_generation, for_range.
    erewrite bind_ok by reflexivity.
    erewrite bind_ok.
    2:{ apply (keystream_loop_run_ge _ _ (length h) (replicate (Z.to_nat N) 0) state s).
        - by rewrite lookup_app_l.
        - done.
        - apply list_lookup_middle. reflexivity.
        - rewrite length_replicate. lia.
        - lia. }
    unfold ret. f_equal.
    replace (length h) with (length h + 0)%nat at 1 by lia.
    rewrite insert_app_r. cbn [list_insert insert]. rewrite <- app_assoc. cbn [app].
    do 2 f_equal. unfold splice. cbn [take app].
    rewrite drop_ge, app_nil_r; [done|].
    rewrite length_replicate, length_stream_spec. lia.
  - unfold orbit. apply Forall_fmap, Forall_forall. intros j _.
    exact (length_iter_clock_S j (take 288 s)).
Qed.

Lemma key_stream_generation_long_state_witness :
  key_stream_generation 0%nat 1 [replicate 300 0]
  = (Ok 1%nat,
     [replicate 300 0] ++ stream_spec Z.lxor Z.land (Z.to_nat 1) (take 288 (replicate 300 0))
       :: orbit Z.lxor Z.land (Z.to_nat 1) (take 288 (replicate 300 0))).
Proof.
  apply (key_stream_generation_long_state [replicate 300 0] 0%nat (replicate 300 0) 1);
    [reflexivity | rewrite length_replicate; lia].
Defined.

(** X2.  A state list of fewer than 288 items makes the first clock raise
    [IndexError] before anything is stored: the store has only gained the
    zero-filled keystream list, which is not returned. *)
Theorem key_stream_generation_short_state (h : heap) (state : ref) (s : list Z) (N : Z) :
  h !! state = Some s -> (length s < 288)%nat -> 0 < N ->
  key_stream_generation state N h
  = (Raise IndexError, h ++ [replicate (Z.to_nat N) 0]).
Proof.
  intros E Hs HN. pose proof (lookup_lt_Some _ _ _ E) as Hst.
  unfold key_stream_generation, for_range.
  erewrite bind_ok by reflexivity.
  destruct (Z.to_nat N) as [|n] eqn:En; [lia|].
  set (h0 := h ++ [replicate (S n) 0]).
  assert (E0 : h0 !! state = Some s) by (unfold h0; by rewrite lookup_app_l).
  apply bind_raise. cbn [for_from]. apply bind_raise. unfold keystream_clock.
  repeat lazymatch goal with
  | |- bind (getitem state ?i) _ _ = _ =>
      destruct (decide (i < length s)%nat);
      [ erewrite bind_ok by (eapply getitem_ok; [exact E0 | lia])
      | apply bind_raise; eapply getitem_IndexError; [exact E0 | lia] ]
  end.
  lia.
Qed.

Lemma key_stream_generation_short_state_witness :
  key_stream_generation 0%nat 1 [replicate 287 0]
  = (Raise IndexError, [replicate 287 0] ++ [replicate (Z.to_nat 1) 0]).
Proof.
  apply (key_stream_generation_short_state [replicate 287 0] 0%nat (replicate 287 0) 1);
    [reflexivity | rewrite length_replicate; lia | lia].
Defined.

(** ** What the setup leaves alone *)

Lemma frames_warmup_clock n state : frames n (warmup_clock state).
Proof.
  unfold warmup_clock.
  repeat first
    [ apply frames_new_list
    | apply frames_bind; [first [ apply frames_getitem | apply frames_getslice ]|];
      intros ? ].
Qed.

Lemma frames_warm_up n state : frames n (warm_up state).
Proof.
  unfold warm_up, for_range. apply frames_for_from. intros _ st.
  apply frames_warmup_clock.
Qed.

(** X3.  [key_iv_setup] writes only to lists it has built itself: whether it
    returns a state or raises, every list that existed before the call, the
    key and the IV among them, is unchanged. *)
Theorem key_iv_setup_preserves (h : heap) (key iv : ref) (r : ref) :
  (r < length h)%nat -> (key_iv_setup key iv h).2 !! r = h !! r.
Proof.
  intros Hr. unfold key_iv_setup, load_key_iv.
  set (h0 := h ++ [replicate 288 0]).
  assert (H0 : (length h <= length h0)%nat) by (unfold h0; rewrite length_app; lia).
  assert (Hf : frames (length h)
                 (state <- (for_range 80 (fun i _ => v <- getitem key i ;;
                                                     setitem (length h) i v) tt ;;;
                            for_range 80 (fun i _ => v <- getitem iv i ;;
                                                     setitem (length h) (93 + i) v) tt ;;;
                            for_range 3 (fun i _ => setitem (length h) (285 + i) 1) tt ;;;
                            ret (length h)) ;;
                  warm_up state)).
  { apply frames_bind; [|intros st; apply frames_warm_up].
    unfold for_range.
    repeat (apply frames_bind;
            [apply frames_for_from; intros i [];
             first [ by apply frames_setitem
                   | apply frames_bind; [apply frames_getitem|];
                     intros v; by apply frames_setitem ]|]; intros _).
    apply frames_ret. }
  destruct (Hf h0 H0) as [_ Hfr].
  transitivity (h0 !! r); [|unfold h0; by apply lookup_app_l].
  rewrite <- Hfr by done. reflexivity.
Qed.

Lemma key_iv_setup_preserves_witness :
  (key_iv_setup 0%nat 0%nat [replicate 79 0]).2 !! 0%nat = [replicate 79 0] !! 0%nat.
Proof. apply (key_iv_setup_preserves [replicate 79 0] 0%nat 0%nat 0%nat). cbn. lia. Defined.

(** * The circuits: what they compute *)
Module CircuitProofs.
Import Grover GroverProofs Circuit.
Local Close Scope Z_scope.

Lemma keystream_round_split i :
  keystream_round i = keystream_pre ++ keystream_out i ++ keystream_post.
Proof. unfold keystream_round, keystream_pre. by rewrite <- !app_assoc. Qed.

(** Gates on the first [N] qubits leave the others alone. *)
Lemma apply_insert_above N g σ q v :
  gate_ok N g -> (N <= q)%nat -> apply g (<[q := v]> σ) = <[q := v]> (apply g σ).
Proof.
  intros Hg Hq. destruct g as [c tg|c1 c2 tg|a b]; cbn in *.
  - rewrite !list_lookup_total_insert_ne by lia. apply list_insert_insert_ne. lia.
  - rewrite !list_lookup_total_insert_ne by lia. apply list_insert_insert_ne. lia.
  - rewrite !list_lookup_total_insert_ne by lia.
    rewrite (list_insert_insert_ne _ a q) by lia.
    apply list_insert_insert_ne. lia.
Qed.

Lemma apply_lookup_above N g σ q :
  gate_ok N g -> (N <= q)%nat -> apply g σ !!! q = σ !!! q.
Proof.
  intros Hg Hq. destruct g as [c tg|c1 c2 tg|a b]; cbn in *;
    by rewrite ?list_lookup_total_insert_ne by lia.
Qed.

Lemma run_insert_above N qc : forall σ q v,
  Forall (gate_ok N) qc -> (N <= q)%nat -> run qc (<[q := v]> σ) = <[q := v]> (run qc σ).
Proof.
  induction qc as [|g qc IH]; intros σ q v Hok Hq; [done|].
  apply Forall_cons in Hok as [Hg Hqc]. cbn.
  rewrite (apply_insert_above N) by done. by apply IH.
Qed.

Lemma run_lookup_above N qc : forall σ q,
  Forall (gate_ok N) qc -> (N <= q)%nat -> run qc σ !!! q = σ !!! q.
Proof.
  induction qc as [|g qc IH]; intros σ q Hok Hq; [done|].
  apply Forall_cons in Hok as [Hg Hqc]. cbn.
  change (foldl _ (apply g σ) qc) with (run qc (apply g σ)).
  rewrite IH by done. by eapply apply_lookup_above.
Qed.

Lemma keystream_pre_ok : Forall (gate_ok 291) keystream_pre.
Proof.
  assert (H : bool_decide (Forall (gate_ok 291) keystream_pre) = true)
    by (vm_compute; reflexivity).
  by apply bool_decide_eq_true in H.
Qed.

Lemma keystream_post_ok : Forall (gate_ok 291) keystream_post.
Proof.
  assert (H : bool_decide (Forall (gate_ok 291) keystream_post) = true)
    by (vm_compute; reflexivity).
  by apply bool_decide_eq_true in H.
Qed.

(** After the three [update_t] the [t] register holds the three pairs of the
    output bit. *)
Lemma keystream_pre_t σ :
  (291 <= length σ)%nat ->
  run keystream_pre σ !!! t 0 = xorb (σ !!! 92%nat) (σ !!! 65%nat)
  /\ run keystream_pre σ !!! t 1 = xorb (σ !!! 176%nat) (σ !!! 161%nat)
  /\ run keystream_pre σ !!! t 2 = xorb (σ !!! 287%nat) (σ !!! 242%nat).
Proof.
  intros H. rewrite (expand_basis σ 291 H).
  generalize (drop 291 σ) as rest. generalize (fun i => σ !!! i) as f. clear.
  intros f rest. vm_compute. done.
Qed.

(** Without the gates on [z], a keystream round clocks the [s] register. *)
Lemma keystream_core_clock σ :
  (291 <= length σ)%nat ->
  take 288 (run (keystream_pre ++ keystream_post) σ)
  = forward_clock_spec xorb andb (take 288 σ).
Proof.
  intros H. rewrite (expand_basis σ 291 H).
  generalize (drop 291 σ) as rest. generalize (fun i => σ !!! i) as f. clear.
  intros f rest. vm_compute. repeat f_equal; case_qubits f.
Qed.

Lemma xorb_out (zi a b c d e f : bool) :
  xorb (xorb (xorb zi (xorb b a)) (xorb d c)) (xorb f e)
  = xorb zi (xorb (xorb (xorb (xorb (xorb a b) c) d) e) f).
Proof. by destruct zi, a, b, c, d, e, f. Qed.

(** One keystream round: [z[i]] receives the output bit of the [s] register
    and the [s] register is clocked; [z] is not read otherwise. *)
Lemma keystream_round_run i σ :
  (291 + i < length σ)%nat ->
  run (keystream_round i) σ
  = <[z i := xorb (σ !!! z i) (output_bit_spec xorb (take 288 σ))]>
      (run (keystream_pre ++ keystream_post) σ).
Proof.
  intros Hi. rewrite keystream_round_split, !run_app.
  set (σa := run keystream_pre σ).
  assert (Hlen : length σa = length σ) by apply length_run.
  destruct (keystream_pre_t σ ltac:(lia)) as (H0 & H1 & H2). fold σa in H0, H1, H2.
  assert (Hz : σa !!! z i = σ !!! z i).
  { apply (run_lookup_above 291); [apply keystream_pre_ok | unfold z; lia]. }
  assert (Hout : run (keystream_out i) σa
                 = <[z i := xorb (σ !!! z i) (output_bit_spec xorb (take 288 σ))]> σa).
  { unfold keystream_out, run. cbn [foldl apply].
    rewrite !list_lookup_total_insert_eq by (rewrite ?length_insert; unfold z; lia).
    rewrite !list_lookup_total_insert_ne by (unfold z, t; lia).
    rewrite !list_insert_insert_eq, H0, H1, H2, Hz. f_equal.
    unfold output_bit_spec. rewrite !lookup_total_take_lt by lia. apply xorb_out. }
  rewrite Hout. apply (run_insert_above 291); [apply keystream_post_ok | unfold z; lia].
Qed.

Lemma keystream_core_ok : Forall (gate_ok 291) (keystream_pre ++ keystream_post).
Proof. apply Forall_app_2; [apply keystream_pre_ok | apply keystream_post_ok]. Qed.

(** [n] keystream rounds. *)
Lemma keystream_rounds_run n : forall σ,
  (291 + n <= length σ)%nat ->
  take 288 (run (for_each n keystream_round) σ)
  = Nat.iter n (forward_clock_spec xorb andb) (take 288 σ)
  /\ (forall i, (i < n)%nat ->
        run (for_each n keystream_round) σ !!! z i
        = xorb (σ !!! z i)
            (output_bit_spec xorb (Nat.iter i (forward_clock_spec xorb andb) (take 288 σ))))
  /\ (forall q, (291 + n <= q)%nat -> run (for_each n keystream_round) σ !!! q = σ !!! q).
Proof.
  induction n as [|n IH]; intros σ Hσ.
  - split; [done|]. split; [intros i Hi; lia | done].
  - destruct (IH σ ltac:(lia)) as (IHs & IHz & IHq).
    rewrite for_each_S, run_app. set (σn := run (for_each n keystream_round) σ) in *.
    assert (Hlen : length σn = length σ) by apply length_run.
    rewrite keystream_round_run by lia.
    set (σc := run (keystream_pre ++ keystream_post) σn).
    assert (Hlenc : length σc = length σn) by apply length_run.
    split; [|split].
    + rewrite take_insert_ge by (unfold z; lia). unfold σc.
      rewrite keystream_core_clock by lia. by rewrite IHs.
    + intros i Hi. destruct (decide (i = n)) as [->|Hne].
      * rewrite list_lookup_total_insert_eq by (unfold z; lia).
        rewrite IHs, IHq by (unfold z; lia). reflexivity.
      * rewrite list_lookup_total_insert_ne by (unfold z; lia). unfold σc.
        rewrite (run_lookup_above 291) by (first [apply keystream_core_ok | unfold z; lia]).
        apply IHz. lia.
    + intros q Hq. rewrite list_lookup_total_insert_ne by (unfold z; lia). unfold σc.
      rewrite (run_lookup_above 291) by (first [apply keystream_core_ok | lia]).
      apply IHq. lia.
Qed.

Lemma warmup_rounds_ok rounds : Forall (gate_ok 291) (for_each rounds (fun _ => forward_round)).
Proof. apply Forall_for_each. intros _ _. by apply forward_round_ok. Qed.

(** X8.  What [trivium] computes on a basis state: the [s] register is clocked
    [rounds + n] times, [z[i]] is xored with output bit [i] of the register
    warmed up by [rounds] clocks, and no qubit after [z] changes. *)
Theorem trivium_keystream (rounds n : nat) (σ : list bool) :
  (291 + n <= length σ)%nat ->
  let W := Nat.iter rounds (forward_clock_spec xorb andb) (take 288 σ) in
  take 288 (run (trivium rounds n) σ) = Nat.iter n (forward_clock_spec xorb andb) W
  /\ (forall i, (i < n)%nat ->
        run (trivium rounds n) σ !!! z i
        = xorb (σ !!! z i)
            (output_bit_spec xorb (Nat.iter i (forward_clock_spec xorb andb) W)))
  /\ (forall q, (291 + n <= q)%nat -> run (trivium rounds n) σ !!! q = σ !!! q)
  /\ length (run (trivium rounds n) σ) = length σ.
Proof.
  intros Hσ W. unfold trivium. rewrite run_app.
  set (σw := run (for_each rounds (fun _ => forward_round)) σ).
  assert (Hlen : length σw = length σ) by apply length_run.
  assert (Hw : take 288 σw = W).
  { pose proof (trivium_rounds_clock rounds σ ltac:(lia)) as H.
    unfold trivium in H. change (for_each 0 keystream_round) with (@nil gate) in H.
    by rewrite app_nil_r in H. }
  assert (Hq : forall q, (291 <= q)%nat -> σw !!! q = σ !!! q).
  { intros q Hq. apply (run_lookup_above 291); [apply warmup_rounds_ok | done]. }
  destruct (keystream_rounds_run n σw ltac:(lia)) as (Hs & Hz & Hr).
  rewrite Hw in Hs, Hz.
  split; [exact Hs|]. split; [|split].
  - intros i Hi. rewrite Hz by done. by rewrite Hq by (unfold z; lia).
  - intros q Hq'. rewrite Hr by done. apply Hq. lia.
  - by rewrite length_run.
Qed.

Lemma trivium_keystream_witness :
  take 288 (run (trivium 1 1) (replicate 292 false))
  = Nat.iter 1 (forward_clock_spec xorb andb)
      (Nat.iter 1 (forward_clock_spec xorb andb) (take 288 (replicate 292 false))).
Proof.
  destruct (trivium_keystream 1 1 (replicate 292 false)) as (H & _).
  - rewrite length_replicate. lia.
  - exact H.
Defined.

(** ** qc_trivium.py against cl_trivium.py *)

Lemma run_ops_app qc1 qc2 σ : run_ops (qc1 ++ qc2) σ = run_ops qc2 (run_ops qc1 σ).
Proof. apply foldl_app. Qed.

Lemma run_ops_G qc : forall σ, run_ops (G <$> qc) σ = run qc σ.
Proof. induction qc as [|g qc IH]; intros σ; [done|]. cbn. apply IH. Qed.

Lemma x_where_run (bits : list bool) off n : forall i0,
  (i0 + n <= length bits)%nat ->
  exists ops, x_where bits off i0 n = Ok ops
    /\ forall a c, length a = (i0 + off)%nat ->
         run_ops ops (a ++ replicate n false ++ c) = a ++ take n (drop i0 bits) ++ c.
Proof.
  induction n as [|n IH]; intros i0 Hn.
  - exists []. split; [done|]. intros a c _. reflexivity.
  - destruct (IH (S i0) ltac:(lia)) as (ops & Hops & Hrun).
    assert (Hb : bits !! i0 = Some (bits !!! i0))
      by (apply list_lookup_lookup_total_lt; lia).
    exists ((if (bits !!! i0 : bool) then [x (s (i0 + off))] else []) ++ ops). split.
    { cbn [x_where]. by rewrite Hb, Hops. }
    intros a c Ha. rewrite run_ops_app.
    assert (Hx : run_ops (if (bits !!! i0 : bool) then [x (s (i0 + off))] else [])
                   (a ++ replicate (S n) false ++ c)
                 = (a ++ [bits !!! i0]) ++ replicate n false ++ c).
    { rewrite <- app_assoc. cbn [replicate app].
      destruct (bits !!! i0); [|done]. unfold s. cbn.
      rewrite <- Ha, list_lookup_total_middle by done. cbn.
      replace (length a) with (length a + 0)%nat at 1 by lia.
      by rewrite insert_app_r. }
    rewrite Hx, Hrun by (rewrite length_app; cbn; lia).
    rewrite <- app_assoc. cbn [app]. by rewrite (drop_S bits (bits !!! i0) i0 Hb).
Qed.

Lemma x_where_short (bits : list bool) off n : forall i0,
  (i0 <= length bits < i0 + n)%nat -> x_where bits off i0 n = Raise IndexError.
Proof.
  induction n as [|n IH]; intros i0 Hn; [lia|]. cbn [x_where].
  destruct (bits !! i0) as [b|] eqn:Hb; [|done].
  apply lookup_lt_Some in Hb. by rewrite IH by lia.
Qed.

Lemma length_init_basis key iv :
  (80 <= length key)%nat -> (80 <= length iv)%nat -> length (init_basis key iv) = 288%nat.
Proof.
  intros Hk Hv. unfold init_basis.
  rewrite !length_app, !length_take, !length_replicate. cbn [length]. lia.
Qed.

(** The state on which the script starts the rounds. *)
Lemma qc_trivium_run key iv r :
  (80 <= length key)%nat -> (80 <= length iv)%nat ->
  exists ops, qc_trivium key iv r = Ok ops
    /\ run_ops ops (replicate (291 + r) false)
       = run (trivium 1152 r) (init_basis key iv ++ replicate (3 + r) false).
Proof.
  intros Hk Hv.
  destruct (x_where_run key 0 80 0 ltac:(lia)) as (kx & Hkx & Hkrun).
  destruct (x_where_run iv 93 80 0 ltac:(lia)) as (ix & Hix & Hirun).
  eexists. split; [unfold qc_trivium; by rewrite Hkx, Hix|].
  rewrite !run_ops_app, run_ops_G.
  generalize (trivium 1152 r). intros T. f_equal.
  replace (291 + r)%nat with (80 + (13 + (80 + (112 + (3 + (3 + r))))))%nat by lia.
  rewrite !(replicate_add _ _ false).
  generalize (replicate 3 false ++ replicate r false). intros rest.
  pose proof (Hkrun [] (replicate 13 false ++ replicate 80 false ++ replicate 112 false
                          ++ replicate 3 false ++ rest) eq_refl) as Hk0.
  cbn [app] in Hk0. rewrite Hk0. cbn [drop].
  rewrite (app_assoc (take 80 key) (replicate 13 false)).
  rewrite Hirun by (rewrite length_app, length_take, length_replicate; lia).
  cbn [drop]. unfold init_basis.
  set (p := (take 80 key ++ replicate 13 false) ++ take 80 iv ++ replicate 112 false).
  assert (Hp : length p = 285%nat).
  { unfold p. rewrite !length_app, !length_take, !length_replicate. lia. }
  transitivity (run_ops [x (s 285); x (s 286); x (s 287)]
                  (p ++ [false; false; false] ++ rest)).
  { f_equal. unfold p. by rewrite <- !app_assoc. }
  transitivity (p ++ [true; true; true] ++ rest);
    [|unfold p; by rewrite <- !app_assoc].
  unfold run_ops, s. cbn [foldl apply_op].
  rewrite !(insert_app_r_alt p) by lia. rewrite Hp. cbn [Nat.sub].
  rewrite !(lookup_total_app_r p) by lia. rewrite Hp. reflexivity.
Qed.

Lemma measure_z_lookup r σ :
  (291 + r <= length σ)%nat -> measure_z r σ = (fun i => σ !!! z i) <$> seq 0 r.
Proof.
  intros Hσ. unfold measure_z. apply list_eq. intros i.
  rewrite list_lookup_fmap.
  destruct (decide (i < r)%nat) as [Hi|Hi].
  - rewrite lookup_take_lt, lookup_drop, lookup_seq_lt by done. cbn.
    apply list_lookup_lookup_total_lt. lia.
  - rewrite lookup_take_ge, lookup_seq_ge by lia. done.
Qed.

(** What the script measures: the first [r] output bits of the register
    prepared from the key and the IV and clocked 1152 times. *)
Lemma qc_keystream_run key iv r :
  (80 <= length key)%nat -> (80 <= length iv)%nat ->
  qc_keystream key iv r
  = Ok (stream_spec xorb andb r
          (Nat.iter 1152 (forward_clock_spec xorb andb) (init_basis key iv))).
Proof.
  intros Hk Hv. destruct (qc_trivium_run key iv r Hk Hv) as (ops & Hops & Hrun).
  unfold qc_keystream. rewrite Hops, Hrun. f_equal.
  set (σ := init_basis key iv ++ replicate (3 + r) false).
  assert (Hlen : length σ = (291 + r)%nat).
  { unfold σ. rewrite length_app, length_init_basis, length_replicate by done. lia. }
  assert (Hs : take 288 σ = init_basis key iv).
  { unfold σ. apply take_app_length'. by rewrite length_init_basis. }
  destruct (trivium_keystream 1152 r σ ltac:(lia)) as (_ & Hz & _ & Hl).
  rewrite measure_z_lookup by lia. unfold stream_spec.
  apply list_fmap_ext. intros i x Hi. apply lookup_seq in Hi as [Hx Hi].
  cbn in Hx. subst x.
  rewrite Hz by done. rewrite Hs.
  assert (H0 : σ !!! z i = false).
  { unfold σ, z. rewrite lookup_total_app_r by (rewrite length_init_basis by done; lia).
    apply lookup_total_replicate_2. rewrite length_init_basis by done. lia. }
  rewrite H0. by destruct (output_bit_spec _ _).
Qed.

(** The boolean clock and the integer clock agree on bits. *)
Lemma b2z_xorb a b : Z.b2z (xorb a b) = Z.lxor (Z.b2z a) (Z.b2z b).
Proof. by destruct a, b. Qed.

Lemma b2z_andb a b : Z.b2z (a && b) = Z.land (Z.b2z a) (Z.b2z b).
Proof. by destruct a, b. Qed.

Lemma b2z_lookup (bs : list bool) i :
  (i < length bs)%nat -> (Z.b2z <$> bs) !!! i = Z.b2z (bs !!! i).
Proof. intros Hi. by apply list_lookup_total_fmap. Qed.

Lemma b2z_cells lo hi (bs : list bool) :
  (hi < length bs)%nat -> Z.b2z <$> cells lo hi bs = cells lo hi (Z.b2z <$> bs).
Proof.
  intros Hhi. unfold cells. rewrite <- list_fmap_compose.
  apply list_fmap_ext. intros j i Hi. apply lookup_seq in Hi as [Hij Hi].
  subst i. cbn. symmetry. apply b2z_lookup. lia.
Qed.

Lemma b2z_clock (bs : list bool) :
  (288 <= length bs)%nat ->
  Z.b2z <$> forward_clock_spec xorb andb bs = clockZ (Z.b2z <$> bs).
Proof.
  intros HS. unfold forward_clock_spec, tap1, tap2, tap3.
  rewrite !fmap_cons, !fmap_app, !fmap_cons, !fmap_app, !fmap_cons.
  rewrite !b2z_cells by lia. rewrite !b2z_xorb, !b2z_andb.
  by rewrite !b2z_lookup by lia.
Qed.

Lemma b2z_output (bs : list bool) :
  (288 <= length bs)%nat -> Z.b2z (output_bit_spec xorb bs) = outZ (Z.b2z <$> bs).
Proof.
  intros HS. unfold output_bit_spec. rewrite !b2z_xorb.
  by rewrite !b2z_lookup by lia.
Qed.

Lemma b2z_iter_clock n (bs : list bool) :
  length bs = 288%nat ->
  Z.b2z <$> Nat.iter n (forward_clock_spec xorb andb) bs
  = Nat.iter n clockZ (Z.b2z <$> bs)
  /\ length (Nat.iter n (forward_clock_spec xorb andb) bs) = 288%nat.
Proof.
  intros HS. induction n as [|n [IH IHl]]; [done|]. split.
  - change (Nat.iter (S n) ?f ?x) with (f (Nat.iter n f x)).
    rewrite b2z_clock by lia. by rewrite IH.
  - apply (length_forward_clock_spec _ _ (Nat.iter n _ bs)).
Qed.

Lemma b2z_stream n (bs : list bool) :
  length bs = 288%nat ->
  Z.b2z <$> stream_spec xorb andb n bs = stream_spec Z.lxor Z.land n (Z.b2z <$> bs).
Proof.
  intros HS. unfold stream_spec. rewrite <- list_fmap_compose.
  apply list_fmap_ext. intros _ j _. cbn.
  destruct (b2z_iter_clock j bs HS) as [Hj Hl].
  rewrite b2z_output by lia. by rewrite Hj.
Qed.

Lemma b2z_init key iv :
  Z.b2z <$> init_basis key iv = init_state (Z.b2z <$> key) (Z.b2z <$> iv).
Proof.
  unfold init_basis, init_state.
  by rewrite !fmap_app, !fmap_take, !fmap_replicate.
Qed.

(** X10.  qc_trivium.py and cl_trivium.py compute the same keystream: for a key
    and an IV of at least 80 bits the bits measured on [z] are, as integers,
    the list that [key_stream_generation] returns after [key_iv_setup]; with a
    shorter key or IV both raise [IndexError] while reading it. *)
Theorem qc_trivium_matches_cl_trivium
    (key iv : list bool) (r : nat) (h : list (list Z)) (kref ivref : nat) :
  h !! kref = Some (Z.b2z <$> key) -> h !! ivref = Some (Z.b2z <$> iv) ->
  ((80 <= length key)%nat -> (80 <= length iv)%nat ->
     exists bits : list bool,
       qc_keystream key iv r = Ok bits
       /\ length bits = r
       /\ fst (fresh_request kref ivref (Z.of_nat r) h) = Ok (Z.b2z <$> bits))
  /\ ((length key < 80)%nat \/ (length iv < 80)%nat ->
       qc_keystream key iv r = Raise IndexError
       /\ exists h', key_iv_setup kref ivref h = (Raise IndexError, h')).
Proof.
  intros Ek Ev. split.
  - intros Hk Hv. eexists. split; [by apply qc_keystream_run|].
    split; [apply length_stream_spec|].
    rewrite (fresh_request_run h kref ivref _ _ _ Ek Ev)
      by (by rewrite length_fmap).
    f_equal. rewrite Nat2Z.id. unfold warmed.
    destruct (b2z_iter_clock 1152 (init_basis key iv) (length_init_basis key iv Hk Hv))
      as [Hit Hl].
    rewrite b2z_stream by done. by rewrite Hit, b2z_init.
  - intros Hshort. split.
    + unfold qc_keystream, qc_trivium.
      destruct (decide (length key < 80)%nat) as [Hk|Hk].
      * by rewrite (x_where_short key 0 80 0) by lia.
      * destruct (x_where_run key 0 80 0 ltac:(lia)) as (kx & -> & _).
        by rewrite (x_where_short iv 93 80 0) by lia.
    + destruct (key_iv_setup_lengths h kref ivref _ _ Ek Ev) as [Hs _].
      destruct Hs as (h' & Hrun & _); [by rewrite !length_fmap|].
      by exists h'.
Qed.

(** ** The oracle *)

Lemma list_eq_total (l1 l2 : list bool) :
  length l1 = length l2 ->
  (forall q, (q < length l1)%nat -> l1 !!! q = l2 !!! q) -> l1 = l2.
Proof.
  intros Hlen Hq. apply list_eq. intros q.
  destruct (decide (q < length l1)%nat) as [Hlt|Hge].
  - rewrite (list_lookup_lookup_total_lt l1 q Hlt).
    rewrite (list_lookup_lookup_total_lt l2 q) by lia. f_equal. by apply Hq.
  - rewrite !lookup_ge_None_2 by lia. done.
Qed.

Lemma length_apply_op o σ : length (apply_op o σ) = length σ.
Proof. destruct o; cbn; rewrite ?length_insert; [apply length_apply|done|done]. Qed.

Lemma length_run_ops qc : forall σ, length (run_ops qc σ) = length σ.
Proof.
  induction qc as [|o qc IH]; intros σ; [done|].
  cbn. unfold run_ops in IH. by rewrite IH, length_apply_op.
Qed.

Lemma for_ops_S n (body : nat -> list op) :
  for_ops (S n) body = for_ops n body ++ body n.
Proof.
  unfold for_ops. rewrite seq_S, fmap_app, concat_app. cbn.
  by rewrite app_nil_r.
Qed.

(** A loop whose iteration [i] rewrites the one qubit [tg i] from qubits that
    no other iteration writes. *)
Lemma for_ops_update N (body : nat -> list op) (tg : nat -> nat)
    (f : nat -> list bool -> bool) :
  (forall i σ, (i < N)%nat -> (tg i < length σ)%nat ->
     run_ops (body i) σ = <[tg i := f i σ]> σ) ->
  (forall i σ σ', (i < N)%nat ->
     (forall q, (forall j, (j < N)%nat -> j <> i -> tg j <> q) -> σ' !!! q = σ !!! q) ->
     f i σ' = f i σ) ->
  (forall i j, (i < N)%nat -> (j < N)%nat -> i <> j -> tg i <> tg j) ->
  forall n σ, (n <= N)%nat -> (forall i, (i < N)%nat -> (tg i < length σ)%nat) ->
    (forall i, (i < n)%nat -> run_ops (for_ops n body) σ !!! tg i = f i σ)
    /\ (forall q, (forall i, (i < n)%nat -> tg i <> q) ->
          run_ops (for_ops n body) σ !!! q = σ !!! q).
Proof.
  intros Hbody Hf Hinj n σ Hn Hlen. induction n as [|n IH].
  - split; [intros i Hi; lia | done].
  - destruct (IH ltac:(lia)) as [IHt IHq].
    rewrite for_ops_S, run_ops_app. set (σn := run_ops (for_ops n body) σ) in *.
    assert (Hl : length σn = length σ) by apply length_run_ops.
    rewrite Hbody by (rewrite ?Hl; auto with lia).
    assert (Hfn : f n σn = f n σ).
    { apply Hf; [lia|]. intros q Hq. apply IHq. intros i Hi. apply Hq; lia. }
    rewrite Hfn. split.
    + intros i Hi. destruct (decide (i = n)) as [->|Hne].
      * apply list_lookup_total_insert_eq. rewrite Hl. auto with lia.
      * rewrite list_lookup_total_insert_ne by (apply Hinj; lia). apply IHt. lia.
    + intros q Hq. rewrite list_lookup_total_insert_ne by (apply Hq; lia).
      apply IHq. intros i Hi. apply Hq. lia.
Qed.

(** Ops on the first [N] qubits commute with a write to a later qubit. *)
Lemma apply_op_insert_above N o σ q v :
  op_below N o -> (N <= q)%nat -> apply_op o (<[q := v]> σ) = <[q := v]> (apply_op o σ).
Proof.
  intros Ho Hq. destruct o as [g|p|cs tg]; cbn in *.
  - by eapply apply_insert_above.
  - rewrite list_lookup_total_insert_ne by lia. apply list_insert_insert_ne. lia.
  - destruct Ho as [Hcs Htg].
    rewrite list_lookup_total_insert_ne by lia.
    rewrite (list_insert_insert_ne _ tg q) by lia. do 3 f_equal.
    induction Hcs as [|c cs Hc Hcs IH]; [done|]. cbn.
    by rewrite list_lookup_total_insert_ne, IH by lia.
Qed.

Lemma run_ops_insert_above N qc : forall σ q v,
  Forall (op_below N) qc -> (N <= q)%nat ->
  run_ops qc (<[q := v]> σ) = <[q := v]> (run_ops qc σ).
Proof.
  induction qc as [|o qc IH]; intros σ q v Hok Hq; [done|].
  apply Forall_cons in Hok as [Ho Hqc]. cbn.
  rewrite (apply_op_insert_above N) by done. by apply IH.
Qed.

Lemma Forall_for_ops (P : op -> Prop) n body :
  (forall i, (i < n)%nat -> Forall P (body i)) -> Forall P (for_ops n body).
Proof.
  intros Hb. unfold for_ops. apply Forall_concat, Forall_fmap, Forall_forall.
  intros i Hi. apply Hb. apply elem_of_seq in Hi. lia.
Qed.

Section Oracle.
Variables n rounds : nat.
Hypothesis Hn : (51 + n <= 288)%nat.

Abbreviation load_ops := (for_ops n (fun i => [G (cx (r_key n i) (s (51 + i)))])).
Abbreviation compare_ops :=
  (for_ops n (fun i => [G (cx (rev_ks n i) (r_ancilla n i));
                        G (cx (z i) (r_ancilla n i));
                        x (r_ancilla n i)])).
Abbreviation uncompare_ops :=
  (for_ops n (fun i => [x (r_ancilla n i);
                        G (cx (rev_ks n i) (r_ancilla n i));
                        G (cx (z i) (r_ancilla n i))])).

Lemma load_run σ :
  (291 + 2 * n <= length σ)%nat ->
  (forall i, (i < n)%nat ->
     run_ops load_ops σ !!! s (51 + i) = xorb (σ !!! s (51 + i)) (σ !!! r_key n i))
  /\ (forall q, (forall i, (i < n)%nat -> s (51 + i) <> q) -> run_ops load_ops σ !!! q = σ !!! q).
Proof using Hn.
  intros Hσ.
  apply (for_ops_update n _ (fun i => s (51 + i))
           (fun i σ => xorb (σ !!! s (51 + i)) (σ !!! r_key n i))); try done.
  - intros i τ τ' Hi Hq. rewrite !Hq; [done| |]; intros j Hj Hne; unfold s, r_key; lia.
  - intros i j Hi Hj Hne. unfold s. lia.
  - intros i Hi. unfold s. lia.
Qed.

Lemma compare_run σ :
  (291 + 4 * n <= length σ)%nat ->
  (forall i, (i < n)%nat ->
     run_ops compare_ops σ !!! r_ancilla n i
     = negb (xorb (xorb (σ !!! r_ancilla n i) (σ !!! rev_ks n i)) (σ !!! z i)))
  /\ (forall q, (forall i, (i < n)%nat -> r_ancilla n i <> q) ->
        run_ops compare_ops σ !!! q = σ !!! q).
Proof.
  intros Hσ.
  apply (for_ops_update n _ (r_ancilla n)
           (fun i σ => negb (xorb (xorb (σ !!! r_ancilla n i) (σ !!! rev_ks n i))
                                  (σ !!! z i)))); try done.
  - intros i τ Hi Hl. unfold run_ops. cbn [foldl apply_op apply].
    rewrite !list_lookup_total_insert_eq by (by rewrite ?length_insert).
    rewrite !list_lookup_total_insert_ne by (unfold r_ancilla, rev_ks, z; lia).
    by rewrite !list_insert_insert_eq.
  - intros i τ τ' Hi Hq.
    rewrite !Hq; [done| | |]; intros j Hj Hne; unfold r_ancilla, rev_ks, z; lia.
  - intros i j Hi Hj Hne. unfold r_ancilla. lia.
  - intros i Hi. unfold r_ancilla. lia.
Qed.

Lemma uncompare_run σ :
  (291 + 4 * n <= length σ)%nat ->
  (forall i, (i < n)%nat ->
     run_ops uncompare_ops σ !!! r_ancilla n i
     = xorb (xorb (negb (σ !!! r_ancilla n i)) (σ !!! rev_ks n i)) (σ !!! z i))
  /\ (forall q, (forall i, (i < n)%nat -> r_ancilla n i <> q) ->
        run_ops uncompare_ops σ !!! q = σ !!! q).
Proof.
  intros Hσ.
  apply (for_ops_update n _ (r_ancilla n)
           (fun i σ => xorb (xorb (negb (σ !!! r_ancilla n i)) (σ !!! rev_ks n i))
                            (σ !!! z i))); try done.
  - intros i τ Hi Hl. unfold run_ops. cbn [foldl apply_op apply].
    rewrite !list_lookup_total_insert_eq by (by rewrite ?length_insert).
    rewrite !list_lookup_total_insert_ne by (unfold r_ancilla, rev_ks, z; lia).
    by rewrite !list_insert_insert_eq.
  - intros i τ τ' Hi Hq.
    rewrite !Hq; [done| | |]; intros j Hj Hne; unfold r_ancilla, rev_ks, z; lia.
  - intros i j Hi Hj Hne. unfold r_ancilla. lia.
  - intros i Hi. unfold r_ancilla. lia.
Qed.

Lemma take_288_lookup (σ : list bool) :
  (288 <= length σ)%nat -> take 288 σ = (fun q => σ !!! q) <$> seq 0 288.
Proof. intros Hσ. apply (slice_cells 0 287 σ); lia. Qed.

Lemma load_candidate σ :
  (291 + 2 * n <= length σ)%nat -> take 288 (run_ops load_ops σ) = candidate n σ.
Proof using Hn.
  intros Hσ. destruct (load_run σ Hσ) as [Ht Hq].
  rewrite take_288_lookup by (rewrite length_run_ops; lia).
  unfold candidate. apply list_fmap_ext. intros j q Hj.
  apply lookup_seq in Hj as [-> Hj]. cbn [Nat.add]. case_decide as Hc.
  - replace j with (s (51 + (j - 51))) at 1 2 by (unfold s; lia). apply Ht. lia.
  - apply Hq. intros i Hi. unfold s. lia.
Qed.

Lemma load_load σ :
  (291 + 2 * n <= length σ)%nat -> run_ops load_ops (run_ops load_ops σ) = σ.
Proof using Hn.
  intros Hσ. set (σ1 := run_ops load_ops σ).
  assert (Hl : length σ1 = length σ) by apply length_run_ops.
  destruct (load_run σ Hσ) as [Ht Hq].
  destruct (load_run σ1 ltac:(lia)) as [Ht1 Hq1]. fold σ1 in Ht, Hq.
  apply list_eq_total; [by rewrite length_run_ops|]. intros q _.
  destruct (decide (51 <= q < 51 + n)%nat) as [Hc|Hc].
  - replace q with (s (51 + (q - 51))) by (unfold s; lia).
    rewrite Ht1, Ht by lia. rewrite (Hq (r_key n (q - 51))).
    + by destruct (σ !!! s _), (σ !!! r_key _ _).
    + intros i Hi. unfold s, r_key. lia.
  - rewrite Hq1, Hq; [done| |]; intros i Hi; unfold s; lia.
Qed.

Lemma uncompare_compare σ :
  (291 + 4 * n <= length σ)%nat -> run_ops uncompare_ops (run_ops compare_ops σ) = σ.
Proof using Hn.
  intros Hσ. set (σ3 := run_ops compare_ops σ).
  assert (Hl : length σ3 = length σ) by apply length_run_ops.
  destruct (compare_run σ Hσ) as [Ht Hq].
  destruct (uncompare_run σ3 ltac:(lia)) as [Ht3 Hq3]. fold σ3 in Ht, Hq.
  apply list_eq_total; [by rewrite length_run_ops|]. intros q _.
  destruct (decide (291 + 3 * n <= q < 291 + 4 * n)%nat) as [Hc|Hc].
  - replace q with (r_ancilla n (q - (291 + 3 * n))) by (unfold r_ancilla; lia).
    rewrite Ht3, Ht by lia.
    rewrite (Hq (rev_ks n _)), (Hq (z _));
      [|intros i Hi; unfold r_ancilla, z; lia
       |intros i Hi; unfold r_ancilla, rev_ks; lia].
    by destruct (σ !!! r_ancilla _ _), (σ !!! rev_ks _ _), (σ !!! z _).
  - rewrite Hq3, Hq; [done| |]; intros i Hi; unfold r_ancilla; lia.
Qed.

Lemma forallb_fmap_ext {A} (f : nat -> bool) (g : A -> nat) (k : A -> bool) (l : list A) :
  (forall a, a ∈ l -> f (g a) = k a) -> forallb f (g <$> l) = forallb k l.
Proof.
  induction l as [|a l IH]; intros Hl; [done|]. cbn.
  rewrite Hl by apply list_elem_of_here. f_equal. apply IH.
  intros b Hb. apply Hl. by apply list_elem_of_further.
Qed.

Lemma load_below : Forall (op_below (291 + 4 * n)) load_ops.
Proof using Hn.
  apply Forall_for_ops. intros i Hi. apply Forall_cons_2; [|apply Forall_nil_2].
  cbn. unfold r_key, s. lia.
Qed.

Lemma uncompare_below : Forall (op_below (291 + 4 * n)) uncompare_ops.
Proof.
  apply Forall_for_ops. intros i Hi.
  repeat (apply Forall_cons_2; [cbn; unfold r_ancilla, rev_ks, z; lia|]).
  apply Forall_nil_2.
Qed.

Lemma inv_trivium_ok N : (291 + n <= N)%nat -> Forall (gate_ok N) (inv_trivium rounds n).
Proof. intros HN. rewrite inv_trivium_reverse. by apply Forall_reverse, trivium_ok. Qed.

(** The oracle on a basis state: [r_output] is flipped when every bit of the
    comparison agrees, and every other qubit is as before. *)
Lemma oracle_run σ :
  (291 + 4 * n < length σ)%nat ->
  run_ops (oracle n rounds) σ
  = <[r_output n := xorb (σ !!! r_output n) (forallb (agrees n rounds σ) (seq 0 n))]> σ.
Proof using Hn.
  intros Hσ. unfold oracle. rewrite !run_ops_app, !run_ops_G.
  set (σ1 := run_ops load_ops σ).
  assert (Hl1 : length σ1 = length σ) by apply length_run_ops.
  destruct (load_run σ ltac:(lia)) as [_ Hq1]. fold σ1 in Hq1.
  pose proof (load_candidate σ ltac:(lia)) as Hcand. fold σ1 in Hcand.
  destruct (trivium_keystream rounds n σ1 ltac:(lia)) as (_ & Hz2 & Hq2 & Hl2).
  rewrite Hcand in Hz2.
  set (σ2 := run (trivium rounds n) σ1) in *.
  destruct (compare_run σ2 ltac:(lia)) as [Ht3 Hq3].
  set (σ3 := run_ops compare_ops σ2) in *.
  assert (Hl3 : length σ3 = length σ2) by apply length_run_ops.
  cbn [run_ops foldl apply_op].
  change (foldl _ ?a uncompare_ops) with (run_ops uncompare_ops a).
  rewrite (run_ops_insert_above (291 + 4 * n)) by (first [apply uncompare_below | unfold r_output; lia]).
  rewrite (run_insert_above (291 + 4 * n)) by (first [apply inv_trivium_ok; lia | unfold r_output; lia]).
  change (foldl _ ?a load_ops) with (run_ops load_ops a).
  rewrite (run_ops_insert_above (291 + 4 * n)) by (first [apply load_below | unfold r_output; lia]).
  unfold σ3. rewrite uncompare_compare by lia.
  unfold σ2. rewrite inv_trivium_run by lia.
  unfold σ1. rewrite load_load by lia. fold σ1 σ2 σ3.
  assert (Hout : σ3 !!! r_output n = σ !!! r_output n).
  { rewrite Hq3 by (intros i Hi; unfold r_ancilla, r_output; lia).
    rewrite Hq2 by (unfold r_output; lia).
    apply Hq1. intros i Hi. unfold s, r_output. lia. }
  rewrite Hout. do 2 f_equal.
  apply forallb_fmap_ext. intros i Hi. apply elem_of_seq in Hi.
  rewrite Ht3 by lia. unfold agrees. do 2 f_equal.
  - f_equal.
    + rewrite Hq2 by (unfold r_ancilla; lia).
      apply Hq1. intros j Hj. unfold s, r_ancilla. lia.
    + rewrite Hq2 by (unfold rev_ks; lia).
      apply Hq1. intros j Hj. unfold s, rev_ks. lia.
  - rewrite Hz2 by lia. f_equal.
    + apply Hq1. intros j Hj. unfold s, z. lia.
    + unfold candidate_keystream. symmetry.
      apply list_lookup_total_correct, lookup_stream_spec. lia.
Qed.
End Oracle.

(** X11.  The oracle marks exactly the candidates that reproduce the known
    keystream: on a basis state with [z] and [r_ancilla] at zero it flips
    [r_output] if and only if the keystream of the [s] register with the bits
    of [r_key] xored into cells 51.. equals [rev_ks], and it restores every
    other qubit, [s], [t], [z] and [r_ancilla] included. *)
Theorem oracle_marks_matching_key (n rounds : nat) (σ : list bool) :
  (1 <= n)%nat -> (51 + n <= 288)%nat -> (291 + 4 * n < length σ)%nat ->
  (forall i, (i < n)%nat -> σ !!! z i = false /\ σ !!! r_ancilla n i = false) ->
  exists hit : bool,
    run_ops (oracle n rounds) σ = <[r_output n := xorb (σ !!! r_output n) hit]> σ
    /\ (hit = true <->
        forall i, (i < n)%nat ->
          candidate_keystream n rounds σ !!! i = σ !!! rev_ks n i).
Proof.
  intros _ Hn Hσ Hclean. exists (forallb (agrees n rounds σ) (seq 0 n)).
  split; [by apply oracle_run|].
  rewrite forallb_forall. split.
  - intros H i Hi. specialize (H i). destruct (Hclean i Hi) as [Hz Ha].
    unfold agrees in H. rewrite Hz, Ha in H.
    assert (Hin : In i (seq 0 n)) by (apply in_seq; lia).
    specialize (H Hin).
    by destruct (candidate_keystream _ _ _ !!! i), (σ !!! rev_ks n i).
  - intros H i Hi. apply in_seq in Hi. destruct (Hclean i ltac:(lia)) as [Hz Ha].
    unfold agrees. rewrite Hz, Ha, H by lia. by destruct (σ !!! rev_ks n i).
Qed.

Lemma oracle_marks_matching_key_witness :
  exists hit : bool,
    run_ops (oracle 1 0) (replicate 296 false)
    = <[r_output 1 := xorb (replicate 296 false !!! r_output 1) hit]> (replicate 296 false).
Proof.
  destruct (oracle_marks_matching_key 1 0 (replicate 296 false)) as (hit & Hrun & _).
  - lia.
  - lia.
  - rewrite length_replicate. lia.
  - intros i Hi. split; apply lookup_total_replicate_2; unfold z, r_ancilla; lia.
  - exists hit. exact Hrun.
Defined.
(** X12.  Applying the oracle twice restores the basis state: the flip of
    [r_output] does not depend on [r_output]. *)
Theorem oracle_twice (n rounds : nat) (σ : list bool) :
  (1 <= n)%nat -> (51 + n <= 288)%nat -> (291 + 4 * n < length σ)%nat ->
  run_ops (oracle n rounds) (run_ops (oracle n rounds) σ) = σ.
Proof.
  intros _ Hn Hσ. rewrite (oracle_run n rounds Hn σ Hσ).
  set (v := xorb _ _). rewrite oracle_run by (by rewrite ?length_insert).
  assert (Hc : candidate n (<[r_output n := v]> σ) = candidate n σ).
  { unfold candidate. apply list_fmap_ext. intros j q Hj.
    apply lookup_seq in Hj as [-> Hj]. cbn [Nat.add].
    case_decide;
      by rewrite !list_lookup_total_insert_ne by (unfold r_output, r_key; lia). }
  assert (Hag : forall i, i ∈ seq 0 n ->
            agrees n rounds (<[r_output n := v]> σ) i = agrees n rounds σ i).
  { intros i Hi. apply elem_of_seq in Hi. unfold agrees, candidate_keystream.
    rewrite Hc.
    by rewrite !list_lookup_total_insert_ne
      by (unfold r_output, r_ancilla, rev_ks, z; lia). }
  rewrite list_lookup_total_insert_eq by (unfold r_output; lia).
  rewrite list_insert_insert_eq.
  assert (Hfa : forallb (agrees n rounds (<[r_output n := v]> σ)) (seq 0 n)
                = forallb (agrees n rounds σ) (seq 0 n)).
  { pose proof (forallb_fmap_ext (agrees n rounds (<[r_output n := v]> σ)) id
                  (agrees n rounds σ) (seq 0 n) Hag) as H.
    by rewrite list_fmap_id in H. }
  rewrite Hfa. unfold v. rewrite xorb_cancel.
  apply list_insert_id, list_lookup_lookup_total_lt. unfold r_output. lia.
Qed.

Lemma oracle_twice_witness :
  run_ops (oracle 1 0) (run_ops (oracle 1 0) (replicate 296 true)) = replicate 296 true.
Proof.
  apply (oracle_twice 1 0 (replicate 296 true)); [lia | lia |].
  rewrite length_replicate. lia.
Defined.

(** ** The parts of a round, for all their arguments *)

(** X6.  [state_update(qc, s, t, a, b, c, d, e, t_index)]: [t[t_index]] receives
    the tap computed from the old qubits, [s[d]] receives the old
    [t[t_index]], nothing else changes. *)
Theorem state_update_run (a b c d e t_index : nat) (σ : list bool) :
  (a < 288)%nat -> (b < 288)%nat -> (c < 288)%nat -> (d < 288)%nat -> (e < 288)%nat ->
  d <> a -> d <> b -> d <> c -> d <> e -> b <> c ->
  (t_index < 3)%nat -> (291 <= length σ)%nat ->
  let σ' := run (state_update a b c d e t_index) σ in
  σ' !!! t t_index
    = xorb (xorb (xorb (σ !!! s d) (σ !!! s a)) (σ !!! s b && σ !!! s c)) (σ !!! s e)
  /\ σ' !!! s d = σ !!! t t_index
  /\ (forall q, q <> s d -> q <> t t_index -> σ' !!! q = σ !!! q)
  /\ run (inv_state_update a b c d e t_index) σ' = σ.
Proof.
  intros Ha Hb Hc Hd He Hda Hdb Hdc Hde Hbc Ht Hσ σ'.
  assert (Hrun : σ' = <[t t_index := xorb (xorb (xorb (σ !!! s d) (σ !!! s a))
                                              (σ !!! s b && σ !!! s c)) (σ !!! s e)]>
                        (<[s d := σ !!! t t_index]> σ)).
  { unfold σ', state_update, run, s, t. cbn [foldl apply].
    rewrite !list_lookup_total_insert_eq by (rewrite ?length_insert; lia).
    rewrite !list_lookup_total_insert_ne by lia.
    by rewrite !list_insert_insert_eq. }
  split; [|split; [|split]].
  - rewrite Hrun. apply list_lookup_total_insert_eq. rewrite length_insert. unfold t. lia.
  - rewrite Hrun. rewrite list_lookup_total_insert_ne by (unfold s, t; lia).
    apply list_lookup_total_insert_eq. unfold s. lia.
  - intros q Hq1 Hq2. rewrite Hrun. by rewrite !list_lookup_total_insert_ne.
  - change (inv_state_update a b c d e t_index)
      with (reverse (state_update a b c d e t_index)).
    apply run_reverse.
    repeat (apply Forall_cons_2; [cbn; unfold s, t; lia|]). apply Forall_nil_2.
Qed.

Lemma state_update_run_witness :
  run (state_update 65 90 91 92 170 0) (replicate 291 true) !!! t 0 = false.
Proof.
  destruct (state_update_run 65 90 91 92 170 0 (replicate 291 true)) as (H & _);
    [lia | lia | lia | lia | lia | lia | lia | lia | lia | lia | lia
    | rewrite length_replicate; lia |].
  exact H.
Defined.

(** X7.  [update_t(qc, s, t, a, b, t_index)]: [t[t_index]] receives
    [s[b] xor s[a]] and [s[b]] receives the old [t[t_index]]. *)
Theorem update_t_run (a b t_index : nat) (σ : list bool) :
  (a < 288)%nat -> (b < 288)%nat -> a <> b -> (t_index < 3)%nat -> (291 <= length σ)%nat ->
  let σ' := run (update_t a b t_index) σ in
  σ' !!! t t_index = xorb (σ !!! s b) (σ !!! s a)
  /\ σ' !!! s b = σ !!! t t_index
  /\ (forall q, q <> s b -> q <> t t_index -> σ' !!! q = σ !!! q)
  /\ run (inv_update_t a b t_index) σ' = σ.
Proof.
  intros Ha Hb Hab Ht Hσ σ'.
  assert (Hrun : σ' = <[t t_index := xorb (σ !!! s b) (σ !!! s a)]>
                        (<[s b := σ !!! t t_index]> σ)).
  { unfold σ', update_t, run, s, t. cbn [foldl apply].
    rewrite !list_lookup_total_insert_eq by (rewrite ?length_insert; lia).
    rewrite !list_lookup_total_insert_ne by lia.
    by rewrite !list_insert_insert_eq. }
  split; [|split; [|split]].
  - rewrite Hrun. apply list_lookup_total_insert_eq. rewrite length_insert. unfold t. lia.
  - rewrite Hrun. rewrite list_lookup_total_insert_ne by (unfold s, t; lia).
    apply list_lookup_total_insert_eq. unfold s. lia.
  - intros q Hq1 Hq2. rewrite Hrun. by rewrite !list_lookup_total_insert_ne.
  - change (inv_update_t a b t_index) with (reverse (update_t a b t_index)).
    apply run_reverse.
    repeat (apply Forall_cons_2; [cbn; unfold s, t; lia|]). apply Forall_nil_2.
Qed.

Lemma update_t_run_witness :
  run (update_t 65 92 0) (replicate 291 true) !!! t 0 = false.
Proof.
  destruct (update_t_run 65 92 0 (replicate 291 true)) as (H & _);
    [lia | lia | lia | lia | rewrite length_replicate; lia |].
  exact H.
Defined.

Lemma state_shifting_step b k tq :
  state_shifting (b + S k) b tq
  = swap (s (b + S k)) (s (b + k)) :: state_shifting (b + k) b tq.
Proof.
  unfold state_shifting.
  replace (S (b + S k) - b)%nat with (S (S k)) by lia.
  replace (S (b + k) - b)%nat with (S k) by lia.
  rewrite (seq_S (S k)), reverse_snoc, fmap_cons.
  rewrite decide_False by lia. do 3 f_equal. lia.
Qed.

Lemma state_shifting_run_add k : forall b tq σ,
  (b + k < tq)%nat -> (tq < length σ)%nat ->
  let σ' := run (state_shifting (b + k) b tq) σ in
  σ' !!! s b = σ !!! tq
  /\ (forall j, (b < j <= b + k)%nat -> σ' !!! s j = σ !!! s (j - 1))
  /\ σ' !!! tq = σ !!! s (b + k)
  /\ (forall q, (q < b \/ b + k < q)%nat -> q <> tq -> σ' !!! q = σ !!! q).
Proof.
  unfold s. induction k as [|k IH]; intros b tq σ Hk Htq; cbn zeta.
  - rewrite Nat.add_0_r. unfold state_shifting.
    replace (S b - b)%nat with 1%nat by lia. cbn [seq reverse fmap list_fmap].
    change (reverse [b]) with [b]. cbn [fmap list_fmap]. rewrite decide_True by done.
    unfold run, s. cbn [foldl apply].
    split; [|split; [|split]].
    + rewrite list_lookup_total_insert_ne by lia.
      apply list_lookup_total_insert_eq. lia.
    + intros j Hj. lia.
    + apply list_lookup_total_insert_eq. rewrite length_insert. lia.
    + intros q Hq Hne. by rewrite !list_lookup_total_insert_ne by lia.
  - rewrite state_shifting_step. cbn [run foldl].
    change (foldl _ ?x (state_shifting (b + k) b tq))
      with (run (state_shifting (b + k) b tq) x).
    set (σ1 := apply (swap (s (b + S k)) (s (b + k))) σ).
    assert (Hl1 : length σ1 = length σ) by apply length_apply.
    assert (H1 : forall q, σ1 !!! q
                  = if decide (q = b + k)%nat then σ !!! (b + S k)%nat
                    else if decide (q = b + S k)%nat then σ !!! (b + k)%nat
                    else σ !!! q).
    { intros q. unfold σ1, s. cbn [apply].
      destruct (decide (q = b + k)%nat) as [->|Hq1].
      - apply list_lookup_total_insert_eq. rewrite length_insert. lia.
      - rewrite list_lookup_total_insert_ne by lia.
        destruct (decide (q = b + S k)%nat) as [->|Hq2].
        + apply list_lookup_total_insert_eq. lia.
        + by rewrite list_lookup_total_insert_ne by lia. }
    destruct (IH b tq σ1 ltac:(lia) ltac:(lia)) as (Hb & Hj & Ht & Hq).
    cbn zeta in Hb, Hj, Ht, Hq.
    split; [|split; [|split]].
    + rewrite Hb, H1. by rewrite !decide_False by lia.
    + intros j Hjr. destruct (decide (j = b + S k)%nat) as [->|Hne].
      * rewrite Hq by lia. rewrite H1. rewrite decide_False, decide_True by lia.
        f_equal. lia.
      * rewrite Hj by lia. rewrite H1. by rewrite !decide_False by lia.
    + rewrite Ht, H1. by rewrite decide_True by done.
    + intros q Hqr Hne. rewrite Hq by lia. rewrite H1.
      by rewrite !decide_False by lia.
Qed.

(** X5.  [state_shifting(qc, s, a, b, t)] for [b <= a]: the qubits
    [s[b], ..., s[a], t] move one place round, [t] into [s[b]] and [s[a]] into
    [t]; no other qubit changes, and [state_shifting_left] moves them back. *)
Theorem state_shifting_run (a b : nat) (tq : nat) (σ : list bool) :
  (b <= a)%nat -> (a < 288)%nat -> (288 <= tq < length σ)%nat ->
  let σ' := run (state_shifting a b tq) σ in
  σ' !!! s b = σ !!! tq
  /\ (forall j, (b < j <= a)%nat -> σ' !!! s j = σ !!! s (j - 1))
  /\ σ' !!! tq = σ !!! s a
  /\ (forall q, (q < b \/ a < q)%nat -> q <> tq -> σ' !!! q = σ !!! q)
  /\ run (state_shifting_left a b tq) σ' = σ.
Proof.
  intros Hba Ha Htq σ'.
  destruct (state_shifting_run_add (a - b) b tq σ ltac:(lia) ltac:(lia))
    as (H1 & H2 & H3 & H4).
  replace (b + (a - b))%nat with a in H1, H2, H3, H4 by lia. cbn zeta in *.
  split; [exact H1|]. split; [exact H2|]. split; [exact H3|]. split; [exact H4|].
  rewrite <- state_shifting_reverse. apply run_reverse.
  apply state_shifting_ok; lia.
Qed.

Lemma state_shifting_run_witness :
  run (state_shifting 92 0 (t 2)) (replicate 290 true ++ [false]) !!! s 0 = false.
Proof.
  destruct (state_shifting_run 92 0 (t 2) (replicate 290 true ++ [false])) as (H & _);
    [lia | lia | rewrite length_app, length_replicate; unfold t; cbn; lia |].
  exact H.
Defined.

(** X9.  [trivium] also undoes [inv_trivium]: the two circuits are inverse
    permutations of the basis states. *)
Theorem trivium_inv_trivium (rounds n : nat) (σ : list bool) :
  (291 + n <= length σ)%nat ->
  run (trivium rounds n) (run (inv_trivium rounds n) σ) = σ.
Proof.
  intros Hσ. rewrite <- (reverse_involutive (trivium rounds n)).
  rewrite <- inv_trivium_reverse. apply run_reverse.
  rewrite inv_trivium_reverse. by apply Forall_reverse, trivium_ok.
Qed.

Lemma trivium_inv_trivium_witness :
  run (trivium 1 1) (run (inv_trivium 1 1) (replicate 292 true)) = replicate 292 true.
Proof.
  apply (trivium_inv_trivium 1 1 (replicate 292 true)).
  rewrite length_replicate. lia.
Defined.

Lemma setup_state_run (h : list (list Z)) (key iv : nat) k v :
  h !! key = Some k -> h !! iv = Some v ->
  (80 <= length k)%nat -> (80 <= length v)%nat ->
  setup_state key iv h = Some (warmed k v).
Proof.
  intros Ek Ev Hk Hv. unfold setup_state.
  rewrite (key_iv_setup_run h key iv k v Ek Ev Hk Hv). apply orbit_last.
Qed.
Lemma qc_trivium_matches_cl_trivium_witness :
  exists bits : list bool,
    qc_keystream (replicate 80 false) (replicate 80 false) 2 = Ok bits
    /\ fst (fresh_request 0 0 (Z.of_nat 2) [Z.b2z <$> replicate 80 false])
       = Ok (Z.b2z <$> bits).
Proof.
  destruct (qc_trivium_matches_cl_trivium (replicate 80 false) (replicate 80 false) 2
              [Z.b2z <$> replicate 80 false] 0 0 eq_refl eq_refl) as [Hok _].
  destruct Hok as (bits & Hq & _ & Hc);
    [rewrite length_replicate; lia | rewrite length_replicate; lia |].
  exists bits. split; [exact Hq | exact Hc].
Defined.

(** ** The warm-up loses nothing *)

Lemma forward_clock_inj (S1 S2 : list bool) :
  length S1 = 288%nat -> length S2 = 288%nat ->
  forward_clock_spec xorb andb S1 = forward_clock_spec xorb andb S2 -> S1 = S2.
Proof.
  intros H1 H2 E.
  rewrite <- (inverse_clock_forward_clock S1 H1), <- (inverse_clock_forward_clock S2 H2).
  by rewrite E.
Qed.

Lemma iter_clock_inj n (S1 S2 : list bool) :
  length S1 = 288%nat -> length S2 = 288%nat ->
  Nat.iter n (forward_clock_spec xorb andb) S1
  = Nat.iter n (forward_clock_spec xorb andb) S2 -> S1 = S2.
Proof.
  intros H1 H2. induction n as [|n IH]; [done|]. intros E. apply IH.
  apply forward_clock_inj; [by apply b2z_iter_clock.. | exact E].
Qed.

Lemma b2z_inj_list (l1 l2 : list bool) : Z.b2z <$> l1 = Z.b2z <$> l2 -> l1 = l2.
Proof.
  revert l2. induction l1 as [|a l1 IH]; intros [|b l2] E; try done.
  cbn in E. injection E as Hab E. f_equal; [by destruct a, b | by apply IH].
Qed.

Lemma warmed_b2z (k v : list bool) :
  length k = 80%nat -> length v = 80%nat ->
  warmed (Z.b2z <$> k) (Z.b2z <$> v)
  = Z.b2z <$> Nat.iter 1152 (forward_clock_spec xorb andb) (init_basis k v).
Proof.
  intros Hk Hv. unfold warmed. rewrite <- b2z_init.
  destruct (b2z_iter_clock 1152 (init_basis k v)
              (length_init_basis k v ltac:(lia) ltac:(lia))) as [E1 _].
  symmetry. exact E1.
Qed.

Lemma init_basis_inj (k v k' v' : list bool) :
  length k = 80%nat -> length v = 80%nat -> length k' = 80%nat -> length v' = 80%nat ->
  init_basis k v = init_basis k' v' -> k = k' /\ v = v'.
Proof.
  intros Hk Hv Hk' Hv' Hw.
  unfold init_basis in Hw. rewrite !take_ge in Hw by lia.
  apply app_inj_1 in Hw as [-> Hw]; [|lia].
  apply app_inj_1 in Hw as [_ Hw]; [|reflexivity].
  apply app_inj_1 in Hw as [-> _]; [|lia].
  split; reflexivity.
Qed.

(** X4.  Two 80-bit key and IV pairs that [key_iv_setup] warms up to the same
    register contents are the same pair: every clock is invertible, so the
    1152 clocks of the warm-up lose nothing of the key and the IV. *)
Theorem key_iv_setup_injective
    (h : list (list Z)) (kref ivref kref' ivref' : nat) (k v k' v' : list bool) :
  h !! kref = Some (Z.b2z <$> k) -> h !! ivref = Some (Z.b2z <$> v) ->
  h !! kref' = Some (Z.b2z <$> k') -> h !! ivref' = Some (Z.b2z <$> v') ->
  length k = 80%nat -> length v = 80%nat -> length k' = 80%nat -> length v' = 80%nat ->
  setup_state kref ivref h = setup_state kref' ivref' h ->
  k = k' /\ v = v'.
Proof.
  intros Ek Ev Ek' Ev' Hk Hv Hk' Hv' Hsame.
  rewrite (setup_state_run h kref ivref _ _ Ek Ev) in Hsame
    by (rewrite length_fmap; lia).
  rewrite (setup_state_run h kref' ivref' _ _ Ek' Ev') in Hsame
    by (rewrite length_fmap; lia).
  rewrite !warmed_b2z in Hsame by done.
  apply (inj Some) in Hsame. apply b2z_inj_list in Hsame.
  apply iter_clock_inj in Hsame; [|apply length_init_basis; lia..].
  by apply init_basis_inj.
Qed.
Lemma key_iv_setup_injective_witness :
  replicate 80 true = replicate 80 true /\ replicate 80 false = replicate 80 false.
Proof.
  apply (key_iv_setup_injective
           [Z.b2z <$> replicate 80 true; Z.b2z <$> replicate 80 false] 0 1 0 1
           (replicate 80 true) (replicate 80 false)
           (replicate 80 true) (replicate 80 false));
    reflexivity.
Defined.
End CircuitProofs.
